(** * einhell-service-stock: the SharePoint table to JSON snapshot pipeline

    A shallow embedding of [scripts/sharepoint_to_json.py], the
    properties its specification states about it, and further properties
    of its functions and of whole runs.

    Conventions of the embedding.
    - A Python [str] is the list of its Unicode code points ([pystr]).
      String literals of the source are written [py "..."] and decoded
      from the UTF-8 bytes of the literal.
    - [str.isspace], [str.isdigit] and the decimal value of a character are
      the tables of the Unicode character database (version 14.0);
      [str.lower], [urllib.parse.quote] and the text of a float, of a
      decoded JSON object and of an exception are parameters, the fields
      of the class [Runtime].
    - A Python [float] is a binary64 number (Rocq's primitive [float]); a
      Python [int] is a [Z].
    - A function that performs I/O is a state transformer over a [world]:
      the environment, the HTTP server (the response to the n-th request),
      and the chronological list of observable events (requests, sleeps,
      log records, file writes).  Exceptions are outcomes.
    - Every request gets a response: failures of the network (exceptions
      of [requests]) are outside the model.  The body of a response is
      seen through the keys the program reads, with the types the service
      gives them; its integers are those [json] decodes, numerals of at
      most 4300 digits, which [str] prints.  The texts of the environment
      hold no lone surrogate, so that [quote] accepts them.
    - Failures that depend on the value alone are modelled: [int(str)]
      refuses a numeral of more than 4300 digits, [time.sleep] refuses a
      wait it cannot convert to nanoseconds, [Path.write_text] empties
      the file and then refuses a text with a lone surrogate.  Errors of
      the operating system (a directory or a file that cannot be written,
      a sleep the kernel rejects) are outside the model. *)

From Stdlib Require Import ZArith NArith List Bool Lia String Ascii.
From Stdlib Require Import Permutation Sorted.
From Stdlib Require Import PrimFloat FloatOps SpecFloat.
Import ListNotations.

Set Warnings "-inexact-float".
Local Open Scope Z_scope.

(** ** Python strings *)

Module Py.

Definition char := N.
Definition pystr := list char.

(** UTF-8 decoding of a source literal (well-formed input assumed: the
    literals of this file). *)
Fixpoint utf8_decode (bs : list N) : pystr :=
  match bs with
  | [] => []
  | b :: r =>
      if (b <? 128)%N then b :: utf8_decode r
      else if (b <? 224)%N then
        match r with
        | c1 :: r' =>
            N.lor (N.shiftl (N.land b 31) 6) (N.land c1 63) :: utf8_decode r'
        | _ => []
        end
      else if (b <? 240)%N then
        match r with
        | c1 :: c2 :: r' =>
            N.lor (N.shiftl (N.land b 15) 12)
              (N.lor (N.shiftl (N.land c1 63) 6) (N.land c2 63))
            :: utf8_decode r'
        | _ => []
        end
      else
        match r with
        | c1 :: c2 :: c3 :: r' =>
            N.lor (N.shiftl (N.land b 7) 18)
              (N.lor (N.shiftl (N.land c1 63) 12)
                 (N.lor (N.shiftl (N.land c2 63) 6) (N.land c3 63)))
            :: utf8_decode r'
        | _ => []
        end
  end.

Definition py (s : string) : pystr :=
  utf8_decode (map (fun a => N_of_ascii a) (list_ascii_of_string s)).

Definition in_ranges (c : char) (rs : list (N * N)) : bool :=
  existsb (fun r => ((fst r <=? c) && (c <=? snd r))%N) rs.

(** [str.isspace] of one character. *)
Definition whitespace_ranges : list (N * N) :=
  [(9, 13); (28, 32); (133, 133); (160, 160); (5760, 5760); (8192, 8202);
   (8232, 8233); (8239, 8239); (8287, 8287); (12288, 12288)]%N.

Definition isspace (c : char) : bool := in_ranges c whitespace_ranges.

(** The code point of digit zero of every decimal script (general category
    Nd); the nine following code points are its digits one to nine. *)
Definition decimal_zeros : list N :=
  [48; 1632; 1776; 1984; 2406; 2534; 2662; 2790; 2918; 3046; 3174; 3302;
   3430; 3558; 3664; 3792; 3872; 4160; 4240; 6112; 6160; 6470; 6608; 6784;
   6800; 6992; 7088; 7232; 7248; 42528; 43216; 43264; 43472; 43504; 43600;
   44016; 65296; 66720; 68912; 69734; 69872; 69942; 70096; 70384; 70736;
   70864; 71248; 71360; 71472; 71904; 72016; 72784; 73040; 73120; 92768;
   92864; 93008; 120782; 120792; 120802; 120812; 120822; 123200; 123632;
   125264; 130032]%N.

(** The characters that are digits without being decimal (superscripts,
    circled digits, ...): [isdigit] holds, [int] and [float] reject them. *)
Definition other_digit_ranges : list (N * N) :=
  [(178, 179); (185, 185); (4969, 4977); (6618, 6618); (8304, 8304);
   (8308, 8313); (8320, 8329); (9312, 9320); (9332, 9340); (9352, 9360);
   (9450, 9450); (9461, 9469); (9471, 9471); (10102, 10110); (10112, 10120);
   (10122, 10130); (68160, 68163); (69216, 69224); (69714, 69722);
   (127232, 127242)]%N.

Fixpoint decimal_in (c : char) (zeros : list N) : option Z :=
  match zeros with
  | [] => None
  | z :: zs =>
      if ((z <=? c) && (c <=? z + 9))%N then Some (Z.of_N (c - z))
      else decimal_in c zs
  end.

(** The decimal value of a character, when it has one. *)
Definition decimal_value (c : char) : option Z := decimal_in c decimal_zeros.

Definition isdecimal (c : char) : bool :=
  match decimal_value c with Some _ => true | None => false end.

(** [ch.isdigit()] for a one-character string. *)
Definition char_isdigit (c : char) : bool :=
  isdecimal c || in_ranges c other_digit_ranges.

(** [s.isdigit()]: non-empty and made of digits. *)
Definition isdigit (s : pystr) : bool :=
  match s with [] => false | _ => forallb char_isdigit s end.

(** Truth value of a string: [bool(s)]. *)
Definition truthy (s : pystr) : bool :=
  match s with [] => false | _ => true end.

Fixpoint lstrip_by (p : char -> bool) (s : pystr) : pystr :=
  match s with
  | [] => []
  | c :: r => if p c then lstrip_by p r else s
  end.

Definition rstrip_by (p : char -> bool) (s : pystr) : pystr :=
  rev (lstrip_by p (rev s)).

(** [s.strip()] *)
Definition strip (s : pystr) : pystr := rstrip_by isspace (lstrip_by isspace s).

(** [s.replace(c, "")] for a one-character [c]. *)
Definition remove_char (c : char) (s : pystr) : pystr :=
  filter (fun x => negb (x =? c)%N) s.

Fixpoint startswith (p s : pystr) : bool :=
  match p, s with
  | [], _ => true
  | a :: p', b :: s' => (a =? b)%N && startswith p' s'
  | _ :: _, [] => false
  end.

(** [sep.join(parts)] *)
Fixpoint join (sep : pystr) (parts : list pystr) : pystr :=
  match parts with
  | [] => []
  | [x] => x
  | x :: rest => x ++ sep ++ join sep rest
  end.

Fixpoint str_eqb (a b : pystr) : bool :=
  match a, b with
  | [], [] => true
  | x :: a', y :: b' => (x =? y)%N && str_eqb a' b'
  | _, _ => false
  end.

(** [a <= b] on strings: lexicographic on code points. *)
Fixpoint str_leb (a b : pystr) : bool :=
  match a, b with
  | [], _ => true
  | _ :: _, [] => false
  | x :: a', y :: b' =>
      if (x <? y)%N then true
      else if (y <? x)%N then false
      else str_leb a' b'
  end.

(** The value of a non-empty run of decimal digits, most significant first. *)
Fixpoint digits_value (acc : Z) (s : pystr) : option Z :=
  match s with
  | [] => Some acc
  | c :: r =>
      match decimal_value c with
      | Some d => digits_value (10 * acc + d) r
      | None => None
      end
  end.

Definition minus_sign : char := 45%N.

(** The limit of CPython on the digits of a numeral that [int] converts
    ([sys.int_max_str_digits], 4300 unless configured otherwise). *)
Definition max_str_digits : Z := 4300.

(** [int] on a run of digits: the value of a run of at most
    [max_str_digits] decimal digits. *)
Definition int_of_digits (s : pystr) : option Z :=
  if max_str_digits <? Z.of_nat (List.length s) then None else digits_value 0 s.

(** [int(s)] on the strings the program passes to it: characters that are
    digits or the minus sign.  [None] stands for [ValueError]. *)
Definition int_of_str (s : pystr) : option Z :=
  match s with
  | [] => None
  | c :: r =>
      if (c =? minus_sign)%N then
        match r with
        | [] => None
        | _ => option_map Z.opp (int_of_digits r)
        end
      else int_of_digits s
  end.

(** [str(n)] for an integer. *)
Fixpoint pos_digits (fuel : nat) (n : Z) (acc : pystr) : pystr :=
  match fuel with
  | O => acc
  | S k =>
      let acc' := (48 + Z.to_N (n mod 10))%N :: acc in
      if n <? 10 then acc' else pos_digits k (n / 10) acc'
  end.

Definition str_of_Z (n : Z) : pystr :=
  if n <? 0 then minus_sign :: pos_digits (Z.to_nat (Z.log2 (- n)) + 1) (- n) []
  else pos_digits (Z.to_nat (Z.log2 n) + 1) n [].

End Py.
Import Py.

(** ** Values, exceptions and dictionaries *)

(** The exceptions the program can end with.  [SystemExit] is raised by
    [die]; the others come from the runtime.  [ValueError] stands for the
    class with its subclasses, [UnicodeEncodeError] among them, but for
    the error of the JSON decoder, which is kept apart. *)
Inductive exn :=
| SystemExit (code : Z)
| ValueError
| OverflowError
| KeyError
| JSONDecodeError.

(** The outcome of a computation; [Diverge] is a loop that has not finished
    within the fuel it was given. *)
Inductive result (A : Type) :=
| Ok (a : A)
| Raise (e : exn)
| Diverge.
Arguments Ok {A} a.
Arguments Raise {A} e.
Arguments Diverge {A}.

(** A cell of a worksheet as the JSON decoder delivers it: [None] for a
    null, a boolean, an integer, a float or a text. *)
Inductive value :=
| VNone
| VBool (b : bool)
| VInt (n : Z)
| VFloat (f : float)
| VStr (s : pystr).

(** An element of the [value] array of a response: a column descriptor or
    a table row, seen through the keys the program reads. *)
Record element := {
  e_name : option pystr;                    (* "name" *)
  e_index : option Z;                       (* "index" *)
  e_values : option (list (list value))     (* "values" *)
}.

(** The JSON object of a response, seen through the keys the program reads:
    [id], [access_token], [value] (an absent key is the empty list) and
    [@odata.nextLink] (an absent key or a null is [None]). *)
Record body := {
  b_id : option pystr;
  b_access_token : option pystr;
  b_value : list element;
  b_next_link : option pystr
}.

(** [{}] *)
Definition empty_body : body :=
  {| b_id := None; b_access_token := None; b_value := []; b_next_link := None |}.

(** The parts of the runtime that are tables or algorithms of their own. *)
Class Runtime := {
  lower : pystr -> pystr;        (* str.lower *)
  float_repr : float -> pystr;   (* repr of a float *)
  body_repr : body -> pystr;     (* repr of a decoded JSON object *)
  exn_str : exn -> pystr;        (* str of an exception *)
  quote : pystr -> pystr         (* urllib.parse.quote *)
}.

(** [int(x)] for a float: truncation toward zero; infinities and NaN have
    no integer value. *)
Definition int_of_float (f : float) : result Z :=
  match Prim2SF f with
  | S754_zero _ => Ok 0
  | S754_infinity _ => Raise OverflowError
  | S754_nan => Raise ValueError
  | S754_finite s m e =>
      let a := if 0 <=? e then Zpos m * 2 ^ e else Zpos m / 2 ^ (- e) in
      Ok (if s then - a else a)
  end.

(** [float(s)] for a string that passed [isdigit]: the nearest binary64
    number of a decimal numeral, [ValueError] on any other digit. *)
Definition float_of_digits (s : pystr) : result float :=
  match digits_value 0 s with
  | Some n => Ok (SF2Prim (binary_normalize prec emax n 0 false))
  | None => Raise ValueError
  end.

(** A Python dict: keys in insertion order, each once. *)
Definition dict (V : Type) := list (pystr * V).

Fixpoint dict_get {V} (d : dict V) (k : pystr) : option V :=
  match d with
  | [] => None
  | (k', v) :: r => if str_eqb k' k then Some v else dict_get r k
  end.

(** [d[k] = v]: an existing key keeps its place. *)
Fixpoint dict_set {V} (d : dict V) (k : pystr) (v : V) : dict V :=
  match d with
  | [] => [(k, v)]
  | (k', v') :: r =>
      if str_eqb k' k then (k', v) :: r else (k', v') :: dict_set r k v
  end.

Definition keys {V} (d : dict V) : list pystr := map fst d.

(** ** The pure helpers of the script *)

Section Helpers.
Context {RT : Runtime}.

(** [str(x)] *)
Definition py_str (x : value) : pystr :=
  match x with
  | VNone => py "None"
  | VBool true => py "True"
  | VBool false => py "False"
  | VInt n => str_of_Z n
  | VFloat f => float_repr f
  | VStr s => s
  end.

Definition nbsp : char := 160%N.
Definition space : char := 32%N.

(** The characters [to_int] keeps: "keep digits and minus". *)
Definition keeps (ch : char) : bool := char_isdigit ch || (ch =? minus_sign)%N.

(** [to_int], lines 61-75. *)
Definition to_int (x : value) : result Z :=
  match x with
  | VNone => Ok 0
  | VBool b => Ok (if b then 1 else 0)
  | VInt n => Ok n
  | VFloat f => int_of_float f
  | _ =>
      let s := strip (py_str x) in
      if negb (truthy s) then Ok 0
      else
        let s := remove_char nbsp (remove_char space s) in
        let cleaned := filter keeps s in
        if truthy cleaned then
          match int_of_str cleaned with
          | Some n => Ok n
          | None => Ok 0
          end
        else Ok 0
  end.

(** [safe_str], lines 77-78. *)
Definition safe_str (x : value) : pystr :=
  match x with
  | VNone => []
  | _ => strip (py_str x)
  end.

Definition row := dict value.

Fixpoint first_match (norm : dict pystr) (r : row) (candidates : list pystr) : value :=
  match candidates with
  | [] => VNone
  | c :: rest =>
      match dict_get norm (lower (strip c)) with
      | Some k =>
          match dict_get r k with
          | Some v => v
          | None => VNone
          end
      | None => first_match norm r rest
      end
  end.

(** [pick_col], lines 142-149. *)
Definition pick_col (r : row) (candidates : list pystr) : value :=
  let norm := fold_left (fun d k => dict_set d (lower (strip k)) k) (keys r) [] in
  first_match norm r candidates.

End Helpers.

(** Python numbers that are waited for: [min(backoff * 1.8, 30)] is the
    integer 30 once the cap applies. *)
Inductive number :=
| NInt (n : Z)
| NFloat (f : float).

Definition float_of_Z (n : Z) : float := SF2Prim (binary_normalize prec emax n 0 false).

Definition to_float (x : number) : float :=
  match x with
  | NInt n => float_of_Z n
  | NFloat f => f
  end.

(** [x * y] for a float [y] *)
Definition times (x : number) (y : float) : number := NFloat (to_float x * y)%float.

(** [min(a, b)]: the first argument unless the second is smaller. *)
Definition num_min (a b : number) : number :=
  if PrimFloat.ltb (to_float b) (to_float a) then b else a.

(** ** Output records and the stable sort *)

(** [{"SKU": sku, "Model": model, "Qty": qty}] *)
Record item := { SKU : pystr; Model : pystr; Qty : Z }.

Section StableSort.
Context {A K : Type} (leb : K -> K -> bool) (key : A -> K).

(** Insert [x] before the first element whose key is not smaller. *)
Fixpoint insert_by (x : A) (l : list A) : list A :=
  match l with
  | [] => [x]
  | y :: r => if leb (key x) (key y) then x :: l else y :: insert_by x r
  end.

(** [sorted(l, key=key)] and [l.sort(key=key)]: ascending and stable. *)
Definition sort_by (l : list A) : list A :=
  fold_right insert_by [] l.

End StableSort.

(** ** The world *)

Record response := {
  status_code : Z;
  retry_after : option pystr;     (* r.headers.get("Retry-After") *)
  text : pystr;
  json : option body              (* r.json(); None when the body is not JSON *)
}.

Inductive level := INFO | WARNING | ERROR.

Inductive event :=
| Log (l : level) (msg : pystr)
| HttpPost (url : pystr) (data : dict pystr)
| HttpGet (url : pystr) (authorization : pystr) (params : option (dict pystr))
| Sleep (seconds : number)
| Mkdir (path : pystr)
| Truncate (path : pystr)                       (* opened for writing, left empty *)
| WriteText (path : pystr) (content : list item).

Record world := {
  environ : pystr -> option pystr;   (* os.environ *)
  server : nat -> response;          (* the response to the n-th request *)
  served : nat;                      (* requests sent so far *)
  events : list event                (* what the run did, oldest first *)
}.

Definition M (A : Type) := world -> result A * world.

Definition ret {A} (a : A) : M A := fun w => (Ok a, w).

Definition bind {A B} (m : M A) (k : A -> M B) : M B :=
  fun w =>
    match m w with
    | (Ok a, w') => k a w'
    | (Raise e, w') => (Raise e, w')
    | (Diverge, w') => (Diverge, w')
    end.

Definition lift {A} (r : result A) : M A := fun w => (r, w).

Definition raise {A} (e : exn) : M A := lift (Raise e).

Notation "x <- c ;; k" := (bind c (fun x => k))
  (at level 61, c at next level, right associativity).
Notation "c ;; k" := (bind c (fun _ => k))
  (at level 61, right associativity).

Definition record (e : event) (w : world) : world :=
  {| environ := environ w; server := server w; served := served w;
     events := events w ++ [e] |}.

Definition emit (e : event) : M unit := fun w => (Ok tt, record e w).

(** Send a request: the event is recorded and the server's next response
    is returned. *)
Definition sent (e : event) (w : world) : world :=
  {| environ := environ w; server := server w; served := S (served w);
     events := events w ++ [e] |}.

Definition send (e : event) : M response :=
  fun w => (Ok (server w (served w)), sent e w).

(** [os.getenv(n, "")] *)
Definition getenv (n : pystr) : M pystr :=
  fun w => (Ok (match environ w n with Some v => v | None => [] end), w).

(** [d[k]] *)
Definition subscript {V} (d : dict V) (k : pystr) : M V :=
  match dict_get d k with
  | Some v => ret v
  | None => raise KeyError
  end.

(** [time.sleep(wait)], up to the point where it sleeps.  The wait is
    first converted to a number of nanoseconds that must fit a signed 64-bit
    integer ([OverflowError] otherwise, [ValueError] for a NaN), and must
    then be non-negative ([ValueError]).  A float is multiplied by 1e9 in
    binary64 arithmetic and compared with 2^63; at exactly 2^63, which no
    wait of the program reaches, the exception depends on the version of
    the interpreter.  The system call that follows is not modelled: the
    kernel refuses a sleep that ends beyond its clock. *)
Definition sleep_check (wait : number) : result unit :=
  match wait with
  | NInt n =>
      if (n * 10 ^ 9 <? - 2 ^ 63) || (2 ^ 63 <=? n * 10 ^ 9) then Raise OverflowError
      else if n <? 0 then Raise ValueError
      else Ok tt
  | NFloat f =>
      match Prim2SF f with
      | S754_nan => Raise ValueError
      | _ =>
          let d := (f * 1e9)%float in
          if PrimFloat.ltb d 9223372036854775808%float
             && PrimFloat.leb (-9223372036854775808)%float d then
            if PrimFloat.ltb f 0%float then Raise ValueError else Ok tt
          else Raise OverflowError
      end
  end.

Definition sleep (wait : number) : M unit :=
  lift (sleep_check wait) ;; emit (Sleep wait).

(** A lone surrogate: a code point that UTF-8 does not encode. *)
Definition surrogate (c : char) : bool := (55296 <=? c)%N && (c <=? 57343)%N.

(** The text of the records can be encoded: [json.dumps] with
    [ensure_ascii=False] leaves the characters of [SKU] and [Model] as
    they are, and everything else it writes is ASCII. *)
Definition encodable (content : list item) : bool :=
  forallb (fun it => forallb (fun c => negb (surrogate c)) (SKU it ++ Model it)) content.

(** [path.write_text(json.dumps(content, ensure_ascii=False, indent=2),
    encoding="utf-8")]: the file is opened, which empties it, and the text
    is encoded and written; a text that cannot be encoded raises
    [UnicodeEncodeError] and the file stays empty. *)
Definition write_text (path : pystr) (content : list item) : M unit :=
  if encodable content then emit (WriteText path content)
  else emit (Truncate path) ;; raise ValueError.

(** ** The script *)

Section Script.
Context {RT : Runtime}.

Definition newline : pystr := [10%N].

(** [die], lines 40-42: log the message and raise [SystemExit]. *)
Definition die (msg : pystr) (code : Z) : M unit :=
  emit (Log ERROR msg) ;; raise (SystemExit code).

Fixpoint require_env_loop (names : list pystr) (out : dict pystr) (missing : list pystr)
  : M (dict pystr * list pystr) :=
  match names with
  | [] => ret (out, missing)
  | n :: rest =>
      v <- getenv n ;;
      let v := strip v in
      if negb (truthy v) then require_env_loop rest out (missing ++ [n])
      else require_env_loop rest (dict_set out n v) missing
  end.

Definition missing_message (missing : list pystr) : pystr :=
  py "Missing required env vars: " ++ join (py ", ") missing ++ newline
  ++ py "➡️ Check GitHub Secrets / workflow env mapping.".

(** [require_env], lines 44-59. *)
Definition require_env (names : list pystr) : M (dict pystr) :=
  r <- require_env_loop names [] [] ;;
  let out := fst r in
  let missing := snd r in
  (match missing with
   | [] => ret tt
   | _ => die (missing_message missing) 2
   end) ;;
  ret out.

(** [normalize_site_path], lines 80-91. *)
Definition normalize_site_path (raw : pystr) : pystr :=
  let s := strip raw in
  let s := if negb (startswith (py "/") s) then py "/" ++ s else s in
  if negb (startswith (py "/sites/") s) then
    if startswith (py "/") s then py "/sites" ++ s else py "/sites/" ++ s
  else s.

(** [normalize_drive_path], lines 93-96. *)
Definition normalize_drive_path (raw : pystr) : pystr :=
  lstrip_by (fun c => (c =? 47)%N) (strip raw).

Definition GRAPH : pystr := py "https://graph.microsoft.com/v1.0".

Record GraphAuth := { tenant_id : pystr; client_id : pystr; client_secret : pystr }.

(** [r.json()] *)
Definition json_of (r : response) : M body :=
  match json r with
  | Some b => ret b
  | None => raise JSONDecodeError
  end.

(** [get_token], lines 108-122. *)
Definition get_token (auth : GraphAuth) : M pystr :=
  let url := py "https://login.microsoftonline.com/" ++ tenant_id auth
             ++ py "/oauth2/v2.0/token" in
  let data := [(py "client_id", client_id auth);
               (py "client_secret", client_secret auth);
               (py "grant_type", py "client_credentials");
               (py "scope", py "https://graph.microsoft.com/.default")] in
  r <- send (HttpPost url data) ;;
  (if negb (status_code r =? 200) then
     die (py "Token request failed: HTTP " ++ str_of_Z (status_code r)
          ++ py " — " ++ firstn 400 (text r)) 2
   else ret tt) ;;
  b <- json_of r ;;
  let token := b_access_token b in
  match token with
  | Some t =>
      (if negb (truthy t) then die (py "Token response missing access_token.") 2
       else ret tt) ;;
      ret t
  | None =>
      die (py "Token response missing access_token.") 2 ;;
      ret []
  end.

(** [r.status_code in (429, 500, 502, 503, 504)] *)
Definition retriable (status : Z) : bool :=
  existsb (Z.eqb status) [429; 500; 502; 503; 504].

(** [float(retry_after) if retry_after and retry_after.isdigit() else backoff] *)
Definition wait_for (retry_after : option pystr) (backoff : number) : result number :=
  match retry_after with
  | Some h =>
      if truthy h && isdigit h then
        match float_of_digits h with
        | Ok f => Ok (NFloat f)
        | Raise e => Raise e
        | Diverge => Diverge
        end
      else Ok backoff
  | None => Ok backoff
  end.

Definition num_repr (x : number) : pystr :=
  match x with
  | NInt n => str_of_Z n
  | NFloat f => float_repr f
  end.

Definition transient_message (status attempt : Z) (max_retries : nat) (wait : number) : pystr :=
  py "Transient HTTP " ++ str_of_Z status ++ py " on GET. attempt="
  ++ str_of_Z attempt ++ py "/" ++ str_of_Z (Z.of_nat max_retries)
  ++ py " waiting=" ++ num_repr wait ++ py "s".

Definition get_failed_message (url : pystr) (r : response) : pystr :=
  py "Graph GET failed: " ++ url ++ newline ++ py "HTTP "
  ++ str_of_Z (status_code r) ++ py " — " ++ firstn 600 (text r).

Definition retries_message (url : pystr) : pystr :=
  py "Graph GET failed after retries: " ++ url.

(** The loop of [graph_get] with [todo] attempts left, the next being
    number [attempt]. *)
Fixpoint graph_get_loop (url token : pystr) (params : option (dict pystr))
    (max_retries : nat) (todo : nat) (attempt : Z) (backoff : number) : M body :=
  match todo with
  | O =>
      die (retries_message url) 2 ;;
      ret empty_body
  | S todo' =>
      r <- send (HttpGet url (py "Bearer " ++ token) params) ;;
      if status_code r =? 200 then json_of r
      else if retriable (status_code r) then
        wait <- lift (wait_for (retry_after r) backoff) ;;
        emit (Log WARNING (transient_message (status_code r) attempt max_retries wait)) ;;
        sleep wait ;;
        graph_get_loop url token params max_retries todo' (attempt + 1)
          (num_min (times backoff 1.8) (NInt 30))
      else
        die (get_failed_message url r) 2 ;;
        graph_get_loop url token params max_retries todo' (attempt + 1) backoff
  end.

(** [graph_get], lines 124-140. *)
Definition graph_get (url token : pystr) (params : option (dict pystr))
    (max_retries : nat) : M body :=
  graph_get_loop url token params max_retries max_retries 1 (NFloat 2.0).

(** The call [graph_get(url, token)] with the defaults of the signature. *)
Definition graph_get_default (url token : pystr) : M body :=
  graph_get url token None 6.

End Script.

Section Main.
Context {RT : Runtime}.

(** [(r.get("values") or [[]])[0]], line 206 *)
Definition first_values (r : element) : list value :=
  match e_values r with
  | Some (v :: _) => v
  | _ => []
  end.

(** The dict comprehension of line 207: column [i] maps to [values[i]], or
    to [None] past the end of the row. *)
Definition make_row (col_names : list pystr) (vals : list value) : row :=
  fold_left
    (fun d i =>
       dict_set d (nth i col_names [])
         (if (i <? List.length vals)%nat then nth i vals VNone else VNone))
    (seq 0 (List.length col_names)) [].

(** The inner loop of lines 205-208. *)
Definition append_rows (col_names : list pystr) (page : list element)
    (rows_out : list row) : list row :=
  fold_left (fun acc r => acc ++ [make_row col_names (first_values r)]) page rows_out.

(** [while url:] *)
Definition url_truthy (url : option pystr) : bool :=
  match url with
  | Some u => truthy u
  | None => false
  end.

(** The pagination loop of lines 203-209; [fuel] bounds the number of
    iterations. *)
Fixpoint main_collect_rows (fuel : nat) (token : pystr) (col_names : list pystr)
    (url : option pystr) (rows_out : list row) : M (list row) :=
  match url with
  | Some u =>
      if truthy u then
        match fuel with
        | O => lift Diverge
        | S fuel' =>
            rows_json <- graph_get_default u token ;;
            let rows_out := append_rows col_names (b_value rows_json) rows_out in
            main_collect_rows fuel' token col_names (b_next_link rows_json) rows_out
        end
      else ret rows_out
  | None => ret rows_out
  end.

(** [[override] if override else defaults], lines 215-220 *)
Definition candidates (override : pystr) (defaults : list pystr) : list pystr :=
  if truthy override then [override] else defaults.

Definition sku_defaults : list pystr := [py "SKU"; py "Артикул"; py "Sku"].
Definition model_defaults : list pystr :=
  [py "Model"; py "Модель"; py "Наименование"; py "Название"].
Definition qty_defaults : list pystr :=
  [py "Бронь для сервиса"; py "Бронь_для_сервиса"; py "Service reserve";
   py "Service Reserve"; py "Qty, pcs"; py "Qty"; py "Количество"; py "Кол-во"].

(** The three optional overrides, already stripped (lines 166-168). *)
Record overrides := { col_sku : pystr; col_model : pystr; col_qty : pystr }.

(** The loop of lines 222-229. *)
Fixpoint main_normalize (ov : overrides) (rows_out : list row) (items : list item)
  : result (list item) :=
  match rows_out with
  | [] => Ok items
  | r :: rest =>
      let sku := safe_str (pick_col r (candidates (col_sku ov) sku_defaults)) in
      if negb (truthy sku) then main_normalize ov rest items
      else
        let model := safe_str (pick_col r (candidates (col_model ov) model_defaults)) in
        match to_int (pick_col r (candidates (col_qty ov) qty_defaults)) with
        | Ok qty =>
            main_normalize ov rest (items ++ [{| SKU := sku; Model := model; Qty := qty |}])
        | Raise e => Raise e
        | Diverge => Diverge
        end
  end.

Definition out_path : pystr := py "public/data/service_stock.json".
Definition out_dir : pystr := py "public/data".

(** Lines 211-239: from the collected rows to the written snapshot. *)
Definition zero_rows_message : pystr :=
  py "Parsed 0 rows from table. Possibly empty table or permission issue.".

Definition done_message (items : list item) : pystr :=
  py "✅ DONE: wrote " ++ str_of_Z (Z.of_nat (List.length items))
  ++ py " items → " ++ out_path.

Definition main_write (ov : overrides) (rows_out : list row) : M unit :=
  (match rows_out with
   | [] => die zero_rows_message 2
   | _ => ret tt
   end) ;;
  items <- lift (main_normalize ov rows_out []) ;;
  let items := sort_by str_leb SKU items in
  emit (Mkdir out_dir) ;;
  write_text out_path items ;;
  emit (Log INFO (done_message items)).

(** Lines 199-239: the rows of the table, from the first page on. *)
Definition rows_url (site_id item_id table_name : pystr) : pystr :=
  GRAPH ++ py "/sites/" ++ site_id ++ py "/drive/items/" ++ item_id
  ++ py "/workbook/tables/" ++ quote table_name ++ py "/rows?$top=500".

Definition loading_message : pystr := py "⬇️ Loading table rows...".

Definition main_rows (fuel : nat) (ov : overrides) (token site_id item_id table_name : pystr)
    (col_names : list pystr) : M unit :=
  emit (Log INFO loading_message) ;;
  let url := rows_url site_id item_id table_name in
  rows_out <- main_collect_rows fuel token col_names (Some url) [] ;;
  main_write ov rows_out.

Definition mandatory : list pystr :=
  [py "TENANT_ID"; py "CLIENT_ID"; py "CLIENT_SECRET";
   py "SP_SITE_HOSTNAME"; py "SP_SITE_PATH"; py "SP_XLSX_PATH"; py "SP_TABLE_NAME"].

(** The test [if not x] on an optional string. *)
Definition falsy (x : option pystr) : bool := negb (url_truthy x).

Definition or_empty (x : option pystr) : pystr :=
  match x with Some s => s | None => [] end.

(** [main], lines 153-239. *)
Definition main (fuel : nat) : M unit :=
  env <- require_env mandatory ;;
  tenant <- subscript env (py "TENANT_ID") ;;
  client <- subscript env (py "CLIENT_ID") ;;
  secret <- subscript env (py "CLIENT_SECRET") ;;
  let auth := {| tenant_id := tenant; client_id := client; client_secret := secret |} in
  hostname <- subscript env (py "SP_SITE_HOSTNAME") ;;
  let hostname := strip hostname in
  site_path <- subscript env (py "SP_SITE_PATH") ;;
  let site_path := normalize_site_path site_path in
  xlsx_path <- subscript env (py "SP_XLSX_PATH") ;;
  let xlsx_path := normalize_drive_path xlsx_path in
  table_name <- subscript env (py "SP_TABLE_NAME") ;;
  let table_name := strip table_name in
  col_sku_override <- getenv (py "SP_COL_SKU") ;;
  col_model_override <- getenv (py "SP_COL_MODEL") ;;
  col_qty_override <- getenv (py "SP_COL_QTY") ;;
  let ov := {| col_sku := strip col_sku_override;
               col_model := strip col_model_override;
               col_qty := strip col_qty_override |} in
  emit (Log INFO (py "🔐 Getting Graph token...")) ;;
  token <- get_token auth ;;
  emit (Log INFO (py "🌐 Resolving site: " ++ hostname ++ py ":" ++ site_path)) ;;
  site <- graph_get_default (GRAPH ++ py "/sites/" ++ hostname ++ py ":" ++ site_path) token ;;
  let site_id := b_id site in
  (if falsy site_id then
     die (py "Could not resolve site id from response: " ++ body_repr site) 2
   else ret tt) ;;
  let site_id := or_empty site_id in
  emit (Log INFO (py "📄 Resolving file in site drive: /" ++ xlsx_path)) ;;
  item_json <- graph_get_default
    (GRAPH ++ py "/sites/" ++ site_id ++ py "/drive/root:/" ++ quote xlsx_path) token ;;
  let item_id := b_id item_json in
  (if falsy item_id then
     die (py "Could not resolve drive item id from response: " ++ body_repr item_json) 2
   else ret tt) ;;
  let item_id := or_empty item_id in
  emit (Log INFO (py "📊 Loading table columns: " ++ table_name)) ;;
  cols_json <- graph_get_default
    (GRAPH ++ py "/sites/" ++ site_id ++ py "/drive/items/" ++ item_id
     ++ py "/workbook/tables/" ++ quote table_name ++ py "/columns?$select=name,index") token ;;
  let cols := b_value cols_json in
  (match cols with
   | [] => die (py "No columns returned. Check SP_TABLE_NAME (exact Excel table name).") 2
   | _ => ret tt
   end) ;;
  let cols_sorted :=
    sort_by Z.leb (fun c => match e_index c with Some i => i | None => 0 end) cols in
  let col_names := map (fun c => or_empty (e_name c)) cols_sorted in
  emit (Log INFO (py "✅ Table columns found: " ++ join (py " | ") col_names)) ;;
  main_rows fuel ov token site_id item_id table_name col_names.

(** Lines 241-248: the process exit code of a run. *)
Definition script (fuel : nat) (w : world) : result Z * world :=
  match main fuel w with
  | (Ok _, w') => (Ok 0, w')
  | (Raise (SystemExit code), w') => (Ok code, w')
  | (Raise e, w') =>
      (Ok 1, record (Log ERROR (exn_str e)) (record (Log ERROR (py "💥 Fatal error")) w'))
  | (Diverge, w') => (Diverge, w')
  end.

End Main.

(** * The vocabulary of the properties *)

Section Vocabulary.
Context {RT : Runtime}.

(** What the specification says [to_int] retains of a text: "only digit
    characters and a leading minus sign". *)
Definition retain_digits_and_leading_minus (s : pystr) : pystr :=
  match s with
  | [] => []
  | c :: r =>
      if (c =? minus_sign)%N then c :: filter char_isdigit r
      else filter char_isdigit s
  end.

(** [to_int] as the specification words it: "strip spaces and the
    non-breaking-space character, retain only digit characters and a
    leading minus sign, parse the remainder as an integer, defaulting to 0
    if the cleaned string is empty or unparseable". *)
Definition to_int_as_specified (x : value) : result Z :=
  match x with
  | VNone => Ok 0
  | VBool b => Ok (if b then 1 else 0)
  | VInt n => Ok n
  | VFloat f => int_of_float f
  | VStr s =>
      let s := remove_char nbsp (remove_char space s) in
      match int_of_str (retain_digits_and_leading_minus s) with
      | Some n => Ok n
      | None => Ok 0
      end
  end.

(** A float that is neither an infinity nor NaN. *)
Definition finite (f : float) : bool :=
  match Prim2SF f with
  | S754_zero _ | S754_finite _ _ _ => true
  | _ => false
  end.

(** [n] is [f] with its fractional part dropped: [|n| <= |f| < |n| + 1],
    with the sign of [f]. *)
Definition truncates (f : float) (n : Z) : Prop :=
  match Prim2SF f with
  | S754_zero _ => n = 0
  | S754_finite s m e =>
      (if s then n <= 0 else 0 <= n) /\
      if 0 <=? e then Z.abs n = Zpos m * 2 ^ e
      else Z.abs n * 2 ^ (- e) <= Zpos m < (Z.abs n + 1) * 2 ^ (- e)
  | _ => False
  end.

(** The integer a cleaned string stands for, 0 when it is no numeral. *)
Definition numeral_or_zero (cleaned : pystr) : Z :=
  match int_of_str cleaned with
  | Some n => n
  | None => 0
  end.

(** The code points of a list of ranges. *)
Definition expand (rs : list (N * N)) : list N :=
  flat_map
    (fun r => map N.of_nat (seq (N.to_nat (fst r)) (S (N.to_nat (snd r) - N.to_nat (fst r)))))
    rs.

(** The SKU, model and quantity cell of a row after override or alias
    resolution. *)
Definition resolved_sku (ov : overrides) (r : row) : pystr :=
  safe_str (pick_col r (candidates (col_sku ov) sku_defaults)).

Definition resolved_model (ov : overrides) (r : row) : pystr :=
  safe_str (pick_col r (candidates (col_model ov) model_defaults)).

Definition resolved_qty (ov : overrides) (r : row) : value :=
  pick_col r (candidates (col_qty ov) qty_defaults).

(** The rows that are kept: those with a non-empty resolved SKU. *)
Definition kept (ov : overrides) (r : row) : bool := truthy (resolved_sku ov r).

(** A quantity cell that has an integer value: anything but an infinite
    or NaN float. *)
Definition quantity_ok (v : value) : Prop :=
  match v with
  | VFloat f => finite f = true
  | _ => True
  end.

(** The record [it] is the one made from the row [r]. *)
Definition record_of (ov : overrides) (r : row) (it : item) : Prop :=
  SKU it = resolved_sku ov r /\
  Model it = resolved_model ov r /\
  to_int (resolved_qty ov r) = Ok (Qty it).

(** The backoff after one more retried attempt. *)
Definition next_backoff (b : number) : number := num_min (times b 1.8) (NInt 30).


(** The waits of a trace, in order. *)
Fixpoint sleeps (evs : list event) : list number :=
  match evs with
  | [] => []
  | Sleep s :: r => s :: sleeps r
  | _ :: r => sleeps r
  end.

(** What [r.json()] gives. *)
Definition parsed (r : response) : result body :=
  match json r with
  | Some b => Ok b
  | None => Raise JSONDecodeError
  end.




(** The events of a run from [w] to [w']. *)
Definition happened (w w' : world) : list event :=
  skipn (List.length (events w)) (events w').

(** A finite sequence of pages: every page but the last has a next link
    that counts as true (a non-empty string), the last has none that does
    (its next link is absent, null or empty). *)
Fixpoint chain (pages : list body) : Prop :=
  match pages with
  | [] => False
  | p :: rest =>
      match rest with
      | [] => url_truthy (b_next_link p) = false
      | _ => url_truthy (b_next_link p) = true /\ chain rest
      end
  end.

(** The server answers the next requests with these pages, one each. *)
Definition serves (w : world) (pages : list body) : Prop :=
  forall i p, nth_error pages i = Some p ->
    status_code (server w (served w + i)) = 200 /\
    json (server w (served w + i)) = Some p.

(** The rows of a sequence of pages, appended to [acc] in order. *)
Definition rows_of (col_names : list pystr) (pages : list body) (acc : list row) : list row :=
  fold_left (fun a p => append_rows col_names (b_value p) a) pages acc.

(** The server never stops announcing a next page. *)
Definition never_ends (w : world) : Prop :=
  forall n, status_code (server w n) = 200 /\
            exists p, json (server w n) = Some p /\ url_truthy (b_next_link p) = true.

(** The GET requests for a list of URLs, as events. *)
Definition gets (token : pystr) (urls : list pystr) : list event :=
  map (fun u => HttpGet u (py "Bearer " ++ token) None) urls.

(** The URLs the collector asks for: the first one, then the next link of
    every page but the last. *)
Definition page_urls (u : pystr) (pages : list body) : list pystr :=
  u :: map (fun p => or_empty (b_next_link p)) (removelast pages).

(** The value of a variable as [require_env] reads it:
    [os.getenv(n, "").strip()]. *)
Definition env_value (w : world) (n : pystr) : pystr :=
  strip (match environ w n with Some v => v | None => [] end).

(** The variable counts as missing. *)
Definition is_missing (w : world) (n : pystr) : bool := negb (truthy (env_value w n)).

(** The dictionary [require_env] builds. *)
Definition collected (w : world) (names : list pystr) (out : dict pystr) : dict pystr :=
  fold_left
    (fun d n => if is_missing w n then d else dict_set d n (env_value w n))
    names out.

(** A string without leading or trailing whitespace. *)
Definition trimmed (s : pystr) : Prop :=
  match s with [] => True | c :: _ => isspace c = false end /\
  match rev s with [] => True | c :: _ => isspace c = false end.

(** An ASCII digit. *)
Definition ascii_digit (c : char) : Prop := (48 <= c <= 57)%N.

(** The dict comprehension of [make_row] as a recursion on the columns. *)
Fixpoint fill (cols : list pystr) (vals : list value) (d : row) : row :=
  match cols with
  | [] => d
  | c :: cs => fill cs (tl vals) (dict_set d c (hd VNone vals))
  end.

(** The form under which [pick_col] compares names. *)
Definition norm_key (k : pystr) : pystr := lower (strip k).

(** The last of the keys [ks] whose normal form is [n], after [acc]. *)
Definition last_match_from (acc : option pystr) (ks : list pystr) (n : pystr) : option pystr :=
  fold_left (fun a k => if str_eqb (norm_key k) n then Some k else a) ks acc.

Definition last_match (ks : list pystr) (n : pystr) : option pystr :=
  last_match_from None ks n.

(** The cell under key [k], [None] when there is none: [row.get(k)]. *)
Definition cell (r : row) (k : pystr) : value :=
  match dict_get r k with
  | Some v => v
  | None => VNone
  end.


(** The requests of a trace, in order. *)
Definition requests (evs : list event) : list event :=
  filter (fun e => match e with HttpPost _ _ | HttpGet _ _ _ => true | _ => false end) evs.

(** What a run can fail with: the exit of [die], whose code is always 2
    inside [main], or an exception of the runtime. *)
Definition failure (e : exn) : Prop :=
  e = SystemExit 2 \/ e = JSONDecodeError \/ e = ValueError \/ e = OverflowError.

(** The files a trace leaves empty: opened for writing and not written. *)
Definition truncations (evs : list event) : list pystr :=
  flat_map (fun e => match e with Truncate p => [p] | _ => [] end) evs.

(** The exit of [die] comes right after its error record. *)
Definition after_die (e : exn) (evs : list event) : Prop :=
  e = SystemExit 2 -> exists pre msg, evs = pre ++ [Log ERROR msg].

(** From [w] the computation [m] records only events that satisfy [Q],
    and fails, if it does, with a [failure]. *)
Definition only {A} (Q : event -> Prop) (m : M A) (w : world) : Prop :=
  exists evs,
    events (snd (m w)) = events w ++ evs /\ Forall Q evs /\
    match fst (m w) with
    | Raise e => failure e /\ after_die e evs
    | _ => True
    end.

(** An event that leaves the files as they are. *)
Definition no_write (e : event) : Prop :=
  match e with
  | WriteText _ _ | Truncate _ => False
  | _ => True
  end.

(** No request but a GET that carries the token [t] and no parameters. *)
Definition bears (t : pystr) (e : event) : Prop :=
  match e with
  | HttpGet _ a p => a = py "Bearer " ++ t /\ p = None
  | HttpPost _ _ => False
  | _ => True
  end.




(** The token request of [main]: the credentials of the environment, sent
    to the login endpoint of the tenant. *)
Definition token_request (w : world) : event :=
  HttpPost
    (py "https://login.microsoftonline.com/" ++ env_value w (py "TENANT_ID")
     ++ py "/oauth2/v2.0/token")
    [(py "client_id", env_value w (py "CLIENT_ID"));
     (py "client_secret", env_value w (py "CLIENT_SECRET"));
     (py "grant_type", py "client_credentials");
     (py "scope", py "https://graph.microsoft.com/.default")].





(** The path with its leading slash, as line 82-83 leaves it. *)
Definition with_slash (s : pystr) : pystr :=
  if negb (startswith (py "/") s) then py "/" ++ s else s.

(** The events [graph_get] and [die] record besides the request. *)
Definition quiet (Q : event -> Prop) : Prop :=
  (forall l msg, Q (Log l msg)) /\ (forall s, Q (Sleep s)) /\ (forall p, Q (Mkdir p)).

End Vocabulary.

(** * Concrete inputs *)

(** A runtime to run examples with: [lower] is exact on Basic Latin and on
    the Cyrillic block, which cover the column names of the script; the
    examples exercise none of the other four operations, which are
    placeholders. *)
Definition example_lower_char (c : char) : char :=
  if in_ranges c [(65, 90); (1040, 1071)]%N then (c + 32)%N
  else if in_ranges c [(1024, 1039)]%N then (c + 80)%N
  else c.

Definition example_runtime : Runtime :=
  {| lower := map example_lower_char;
     float_repr := fun _ => py "<float>";
     body_repr := fun _ => py "<dict>";
     exn_str := fun _ => py "<exception>";
     quote := fun s => s |}.

(** A world with no request sent and nothing done yet. *)
Definition fresh (env : pystr -> option pystr) (srv : nat -> response) : world :=
  {| environ := env; server := srv; served := 0; events := [] |}.

Definition no_env : pystr -> option pystr := fun _ => None.

(** Every mandatory variable is set, no override is. *)
Definition full_env : pystr -> option pystr :=
  fun n => if existsb (str_eqb n) mandatory then Some (py " x ") else None.

(** A response without a Retry-After header. *)
Definition answer (status : Z) (b : option body) : response :=
  {| status_code := status; retry_after := None; text := py "body"; json := b |}.

Definition table_row (cells : list value) : element :=
  {| e_name := None; e_index := None; e_values := Some [cells] |}.

Definition column (n : pystr) (i : Z) : element :=
  {| e_name := Some n; e_index := Some i; e_values := None |}.

Definition page (rows : list element) (next : option pystr) : body :=
  {| b_id := None; b_access_token := None; b_value := rows; b_next_link := next |}.

Definition object (i : option pystr) (tok : option pystr) : body :=
  {| b_id := i; b_access_token := tok; b_value := []; b_next_link := None |}.

Definition no_overrides : overrides := {| col_sku := []; col_model := []; col_qty := [] |}.

(** The table of the end-to-end scenario of the specification. *)
Definition sku_qty : list pystr := [py "SKU"; py "Qty"].

Definition scenario_rows : list row :=
  [make_row sku_qty [VStr (py "B2"); VStr (py "")];
   make_row sku_qty [VStr (py ""); VStr (py "3")];
   make_row sku_qty [VStr (py "A1"); VStr (py "5")]].

Definition scenario_items : list item :=
  [{| SKU := py "B2"; Model := []; Qty := 0 |};
   {| SKU := py "A1"; Model := []; Qty := 5 |}].

(** The server of a whole run: token, site, drive item, columns, then one
    page of rows. *)
Definition table_server (rows : list element) : nat -> response :=
  fun n =>
    match n with
    | 0%nat => answer 200 (Some (object None (Some (py "token"))))
    | 1%nat => answer 200 (Some (object (Some (py "site")) None))
    | 2%nat => answer 200 (Some (object (Some (py "item")) None))
    | 3%nat => answer 200 (Some (page [column (py "Qty") 1; column (py "SKU") 0] None))
    | _ => answer 200 (Some (page rows None))
    end.

(** A snapshot with no record was written. *)
Definition wrote_empty (evs : list event) : bool :=
  existsb (fun e => match e with WriteText _ [] => true | _ => false end) evs.

Definition snapshots (evs : list event) : list (list item) :=
  flat_map (fun e => match e with WriteText _ c => [c] | _ => [] end) evs.

(** A server that answers 503 once and then 200. *)
Definition busy_once : nat -> response :=
  fun n =>
    match n with
    | 0%nat => answer 503 None
    | _ => answer 200 (Some (page [] None))
    end.

(** A server that always answers 503, without a Retry-After header. *)
Definition always_busy : nat -> response := fun _ => answer 503 None.

(** Two pages: the first has a row and a next link, the second has no row
    and no next link. *)
Definition two_pages : list body :=
  [page [table_row [VStr (py "A1"); VStr (py "5")]] (Some (py "next"));
   page [] None].

Definition two_pages_server : nat -> response :=
  fun n => answer 200 (nth_error two_pages n).

(** An environment in which two of the mandatory variables are missing:
    one unset, one made of spaces. *)
Definition partial_env : pystr -> option pystr :=
  fun n =>
    if str_eqb n (py "CLIENT_ID") then None
    else if str_eqb n (py "SP_XLSX_PATH") then Some (py "   ")
    else full_env n.

(** A row whose SKU column carries the Cyrillic alias, in lower case and
    with a leading space. *)
Definition alias_row : row :=
  [(py "Qty", VInt 5); (py " артикул", VStr (py "A1"))].

(** A row with two columns of the same normal form. *)
Definition old_sku_row : row := [(py "SKU", VStr (py "old"))].

(** An override that names no column of the scenario table. *)
Definition code_override : overrides :=
  {| col_sku := py "Code"; col_model := []; col_qty := [] |}.

(** An element of a page without values. *)
Definition blank_element : element :=
  {| e_name := None; e_index := None; e_values := None |}.


(** A server that always answers 503 with a Retry-After header. *)
Definition hinting (h : pystr) : nat -> response :=
  fun _ => {| status_code := 503; retry_after := Some h; text := []; json := None |}.


(** A table whose only SKU is a lone surrogate. *)
Definition surrogate_cells : list (list value) := [[VStr [55357%N]; VStr (py "1")]].

(** * Properties *)

(** ** Strings *)

Section StringFacts.

Lemma lstrip_by_split (p : char -> bool) (s : pystr) :
  exists pre, s = pre ++ lstrip_by p s /\ forallb p pre = true.
Proof.
  induction s as [|c r IH]; simpl.
  - exists []. auto.
  - destruct (p c) eqn:E.
    + destruct IH as [pre [H1 H2]]. exists (c :: pre). simpl.
      rewrite E, H2. split; [f_equal; exact H1 | reflexivity].
    + exists []. auto.
Qed.

Lemma rstrip_by_split (p : char -> bool) (s : pystr) :
  exists post, s = rstrip_by p s ++ post /\ forallb p post = true.
Proof.
  unfold rstrip_by.
  destruct (lstrip_by_split p (rev s)) as [pre [H1 H2]].
  exists (rev pre). split.
  - rewrite <- rev_app_distr, <- H1, rev_involutive. reflexivity.
  - rewrite forallb_forall in *. intros x Hx. apply H2, in_rev, Hx.
Qed.

Lemma strip_split (s : pystr) :
  exists pre post,
    s = pre ++ strip s ++ post /\
    forallb isspace pre = true /\ forallb isspace post = true.
Proof.
  unfold strip.
  destruct (lstrip_by_split isspace s) as [pre [H1 H2]].
  destruct (rstrip_by_split isspace (lstrip_by isspace s)) as [post [H3 H4]].
  exists pre, post. repeat split; auto.
  rewrite <- H3. exact H1.
Qed.

Lemma lstrip_by_head (p : char -> bool) (s : pystr) :
  match lstrip_by p s with
  | [] => True
  | c :: _ => p c = false
  end.
Proof.
  induction s as [|c r IH]; simpl; auto.
  destruct (p c) eqn:E; auto.
Qed.

Lemma lstrip_by_fixed (p : char -> bool) (s : pystr) :
  match s with [] => True | c :: _ => p c = false end ->
  lstrip_by p s = s.
Proof.
  destruct s as [|c r]; simpl; auto. intros ->. reflexivity.
Qed.

(** Stripping twice strips once. *)
Lemma strip_idempotent (s : pystr) : strip (strip s) = strip s.
Proof.
  unfold strip.
  set (a := lstrip_by isspace s).
  assert (Ha : match a with [] => True | c :: _ => isspace c = false end)
    by apply lstrip_by_head.
  assert (Hr : match rev (rstrip_by isspace a) with
               | [] => True | c :: _ => isspace c = false end).
  { unfold rstrip_by. rewrite rev_involutive. apply lstrip_by_head. }
  assert (Hl : lstrip_by isspace (rstrip_by isspace a) = rstrip_by isspace a).
  { apply lstrip_by_fixed.
    destruct (rstrip_by_split isspace a) as [post [H1 _]].
    destruct (rstrip_by isspace a) as [|c r] eqn:E; auto.
    destruct a as [|c' r']; [destruct r; discriminate|].
    simpl in H1. injection H1 as -> _. exact Ha. }
  rewrite Hl. unfold rstrip_by at 1.
  rewrite (lstrip_by_fixed _ _ Hr). apply rev_involutive.
Qed.

Lemma str_eqb_eq (a b : pystr) : str_eqb a b = true <-> a = b.
Proof.
  revert b; induction a as [|x a IH]; destruct b as [|y b]; simpl;
    try (split; [discriminate | discriminate]); try tauto.
  rewrite andb_true_iff, N.eqb_eq, IH.
  split; [intros [-> ->]; reflexivity | intros H; injection H; auto].
Qed.

Lemma str_eqb_refl (a : pystr) : str_eqb a a = true.
Proof. apply str_eqb_eq. reflexivity. Qed.

Lemma str_leb_refl (a : pystr) : str_leb a a = true.
Proof.
  induction a as [|x a IH]; simpl; auto. rewrite N.ltb_irrefl. exact IH.
Qed.

Lemma str_leb_total (a b : pystr) : str_leb a b = true \/ str_leb b a = true.
Proof.
  revert b; induction a as [|x a IH]; destruct b as [|y b]; simpl; auto.
  destruct (N.ltb_spec x y), (N.ltb_spec y x); auto; lia.
Qed.

Lemma str_leb_trans (a b c : pystr) :
  str_leb a b = true -> str_leb b c = true -> str_leb a c = true.
Proof.
  revert b c; induction a as [|x a IH]; intros [|y b] [|z c]; simpl; auto;
    try discriminate.
  destruct (N.ltb_spec x y), (N.ltb_spec y x), (N.ltb_spec y z),
    (N.ltb_spec z y), (N.ltb_spec x z), (N.ltb_spec z x);
    try discriminate; try lia; auto.
  apply IH.
Qed.

Lemma str_leb_antisym (a b : pystr) :
  str_leb a b = true -> str_leb b a = true -> a = b.
Proof.
  revert b; induction a as [|x a IH]; intros [|y b]; simpl; auto;
    try discriminate.
  destruct (N.ltb_spec x y), (N.ltb_spec y x); try discriminate; try lia.
  intros H1 H2. f_equal; [lia | apply IH; assumption].
Qed.

End StringFacts.

(** ** Character classes *)

Section CharacterClasses.

Lemma in_ranges_expand (c : char) (rs : list (N * N)) :
  in_ranges c rs = true -> In c (expand rs).
Proof.
  unfold in_ranges. rewrite existsb_exists. intros [r [Hin H]].
  apply andb_true_iff in H. destruct H as [H1 H2].
  apply N.leb_le in H1, H2.
  apply in_flat_map. exists r. split; [exact Hin|].
  apply in_map_iff. exists (N.to_nat c). split; [apply N2Nat.id|].
  apply in_seq. lia.
Qed.

(** No whitespace character is a digit or the minus sign. *)
Lemma space_not_kept (c : char) : isspace c = true -> keeps c = false.
Proof.
  intros H. apply in_ranges_expand in H.
  assert (A : forallb (fun x => negb (keeps x)) (expand whitespace_ranges) = true)
    by (vm_compute; reflexivity).
  rewrite forallb_forall in A. apply A in H.
  destruct (keeps c); [discriminate | reflexivity].
Qed.

Lemma filter_keeps_spaces (s : pystr) :
  forallb isspace s = true -> filter keeps s = [].
Proof.
  induction s as [|c r IH]; simpl; auto.
  rewrite andb_true_iff. intros [H1 H2].
  rewrite (space_not_kept c H1). auto.
Qed.

Lemma filter_keeps_remove (c : char) (s : pystr) :
  keeps c = false -> filter keeps (remove_char c s) = filter keeps s.
Proof.
  intros Hc. unfold remove_char.
  induction s as [|x r IH]; simpl; auto.
  destruct (N.eqb_spec x c) as [->|Hne]; simpl.
  - rewrite Hc. exact IH.
  - destruct (keeps x); rewrite IH; reflexivity.
Qed.

(** Stripping and removing spaces change nothing of what is kept. *)
Lemma filter_keeps_strip (s : pystr) : filter keeps (strip s) = filter keeps s.
Proof.
  destruct (strip_split s) as [pre [post [H [Hpre Hpost]]]].
  rewrite H at 2. rewrite !filter_app.
  rewrite (filter_keeps_spaces _ Hpre), (filter_keeps_spaces _ Hpost).
  rewrite app_nil_r. reflexivity.
Qed.

Lemma digits_value_minus (a b : pystr) (acc : Z) :
  digits_value acc (a ++ minus_sign :: b) = None.
Proof.
  revert acc; induction a as [|c r IH]; intros acc; simpl.
  - reflexivity.
  - destruct (decimal_value c); auto.
Qed.

Lemma int_of_digits_minus (a b : pystr) :
  int_of_digits (a ++ minus_sign :: b) = None.
Proof.
  unfold int_of_digits.
  destruct (max_str_digits <? _); [reflexivity | apply digits_value_minus].
Qed.

(** A numeral has its minus sign in first place only. *)
Lemma int_of_str_inner_minus (a b : pystr) :
  a <> [] -> int_of_str (a ++ minus_sign :: b) = None.
Proof.
  destruct a as [|c r]; [congruence|]. intros _.
  unfold int_of_str. rewrite <- app_comm_cons.
  destruct (c =? minus_sign)%N.
  - rewrite int_of_digits_minus. destruct (r ++ minus_sign :: b); reflexivity.
  - rewrite app_comm_cons. apply int_of_digits_minus.
Qed.

End CharacterClasses.

(** ** Quantity coercion: [to_int] *)

Section ToInt.
Context {RT : Runtime}.

Lemma int_of_float_truncates (f : float) :
  finite f = true -> exists n, int_of_float f = Ok n /\ truncates f n.
Proof.
  unfold finite, int_of_float, truncates.
  destruct (Prim2SF f) as [s| s | |s m e]; try discriminate; intros _.
  - exists 0. auto.
  - eexists. split; [reflexivity|].
    destruct (Z.leb_spec 0 e) as [He|He].
    + assert (0 < Zpos m * 2 ^ e) by (apply Z.mul_pos_pos; [lia | apply Z.pow_pos_nonneg; lia]).
      destruct s; split; try lia.
    + assert (P : 0 < 2 ^ (- e)) by (apply Z.pow_pos_nonneg; lia).
      pose proof (Z.div_pos (Zpos m) (2 ^ (- e)) ltac:(lia) P) as Q.
      pose proof (Z.mul_div_le (Zpos m) (2 ^ (- e)) P) as L.
      pose proof (Z.mul_succ_div_gt (Zpos m) (2 ^ (- e)) P) as G.
      assert (Z.abs (if s then - (Zpos m / 2 ^ (- e)) else Zpos m / 2 ^ (- e))
              = Zpos m / 2 ^ (- e)) as -> by (destruct s; lia).
      destruct s; split; try lia; nia.
Qed.

(** On text, [to_int] is the numeral made of the digits and minus signs of
    the text, and 0 when these form no numeral. *)
Lemma to_int_text (s : pystr) :
  to_int (VStr s) = Ok (numeral_or_zero (filter keeps s)).
Proof.
  unfold to_int, py_str, numeral_or_zero.
  destruct (strip s) as [|c r] eqn:E; simpl negb; cbv iota.
  - rewrite <- (filter_keeps_strip s), E. reflexivity.
  - rewrite <- E.
    rewrite (filter_keeps_remove nbsp) by reflexivity.
    rewrite (filter_keeps_remove space) by reflexivity.
    rewrite filter_keeps_strip.
    destruct (filter keeps s) as [|c' r'] eqn:F; simpl truthy; cbv iota.
    + reflexivity.
    + destruct (int_of_str (c' :: r')); reflexivity.
Qed.

(** [to_int] returns on everything but a float without an integer value. *)
Lemma to_int_result (x : value) :
  match to_int x with
  | Ok _ => quantity_ok x
  | Raise e => e = OverflowError \/ e = ValueError
  | Diverge => False
  end.
Proof.
  destruct x as [| b | n | f | s]; try exact I.
  - unfold to_int, int_of_float, quantity_ok, finite.
    destruct (Prim2SF f); auto.
  - rewrite to_int_text. exact I.
Qed.

(** C4.  The examples of quantity coercion: ["1 234"] gives 1234, ["-12"]
    gives -12, the empty string, [None] and ["abc"] give 0, and the float
    7.9 gives 7. *)
Theorem to_int_examples :
  to_int (VStr (py "1 234")) = Ok 1234 /\
  to_int (VStr (py "-12")) = Ok (-12) /\
  to_int (VStr (py "")) = Ok 0 /\
  to_int VNone = Ok 0 /\
  to_int (VStr (py "abc")) = Ok 0 /\
  to_int (VFloat 7.9) = Ok 7.
Proof.
  repeat split; vm_compute; reflexivity.
Qed.

(** A run of decimal digits within the limit is a numeral, and so is the
    run behind one minus sign. *)
Lemma int_of_str_digits (ds : pystr) (n : Z) :
  ds <> [] -> Z.of_nat (List.length ds) <= max_str_digits ->
  digits_value 0 ds = Some n ->
  int_of_str ds = Some n /\ int_of_str (minus_sign :: ds) = Some (- n).
Proof.
  intros Hne Hlen Hv.
  assert (I : int_of_digits ds = Some n).
  { unfold int_of_digits. destruct (Z.ltb_spec max_str_digits (Z.of_nat (List.length ds))); [lia|].
    exact Hv. }
  split.
  - destruct ds as [|c r]; [congruence|]. unfold int_of_str.
    destruct (N.eqb_spec c minus_sign) as [->|_]; [|exact I].
    pose proof (digits_value_minus [] r 0) as X. cbn [app] in X. congruence.
  - unfold int_of_str. rewrite N.eqb_refl, I.
    destruct ds; [congruence | reflexivity].
Qed.

(** A numeral has at most [max_str_digits] digits. *)
Lemma int_of_str_digit_count (k : pystr) (n : Z) :
  int_of_str k = Some n ->
  Z.of_nat (List.length (filter char_isdigit k)) <= max_str_digits.
Proof.
  assert (L : forall r : pystr, int_of_digits r <> None ->
                Z.of_nat (List.length (filter char_isdigit r)) <= max_str_digits).
  { intros r H. unfold int_of_digits in H.
    destruct (Z.ltb_spec max_str_digits (Z.of_nat (List.length r))); [congruence|].
    pose proof (filter_length_le char_isdigit r). lia. }
  unfold int_of_str. destruct k as [|c r]; [discriminate|].
  destruct (N.eqb_spec c minus_sign) as [->|_].
  - destruct r as [|c' r']; [discriminate|]. intros H.
    change (filter char_isdigit (minus_sign :: c' :: r'))
      with (filter char_isdigit (c' :: r')).
    apply L. destruct (int_of_digits (c' :: r')); [discriminate | discriminate H].
  - intros H. apply L. congruence.
Qed.

Lemma filter_isdigit_keeps (s : pystr) :
  filter char_isdigit (filter keeps s) = filter char_isdigit s.
Proof.
  induction s as [|c r IH]; [reflexivity|]. cbn [filter]. unfold keeps at 1.
  destruct (char_isdigit c) eqn:D; cbn [orb].
  - cbn [filter]. rewrite D, IH. reflexivity.
  - destruct (c =? minus_sign)%N; [cbn [filter]; rewrite D|]; exact IH.
Qed.

(** C5 (amended).  [to_int] on every value: [None] gives 0; a boolean gives
    0 or 1 and an integer itself; a finite float is truncated toward zero,
    and an infinite or NaN float raises; of a text only the digits and
    every minus sign are kept (so spaces, non-breaking spaces and all other
    characters go), and the result is the integer they spell, or 0 when
    nothing is kept or what is kept is no numeral.  What is kept is a
    numeral when it is a run of at most 4300 decimal digits, alone or
    behind one minus sign; it is none whenever a minus sign is kept
    anywhere but in first place, and whenever more than 4300 digits are
    kept. *)
Theorem to_int_cases (x : value) :
  match x with
  | VNone => to_int x = Ok 0
  | VBool b => to_int x = Ok (if b then 1 else 0)
  | VInt n => to_int x = Ok n
  | VFloat f =>
      (finite f = true -> exists n, to_int x = Ok n /\ truncates f n) /\
      (finite f = false ->
       exists e, to_int x = Raise e /\ (e = OverflowError \/ e = ValueError))
  | VStr s =>
      to_int x = Ok (numeral_or_zero (filter keeps s)) /\
      (filter keeps s = [] -> to_int x = Ok 0) /\
      (forall a b, a <> [] -> filter keeps s = a ++ minus_sign :: b -> to_int x = Ok 0) /\
      (forall ds n,
         ds <> [] -> Z.of_nat (List.length ds) <= 4300 -> digits_value 0 ds = Some n ->
         (filter keeps s = ds -> to_int x = Ok n) /\
         (filter keeps s = minus_sign :: ds -> to_int x = Ok (- n))) /\
      (4300 < Z.of_nat (List.length (filter char_isdigit s)) -> to_int x = Ok 0)
  end.
Proof.
  destruct x as [| b | n | f | s]; try reflexivity.
  - split; [apply int_of_float_truncates|].
    intros F. pose proof (to_int_result (VFloat f)) as R.
    destruct (to_int (VFloat f)) as [n|e|].
    + cbn in R. congruence.
    + exists e. auto.
    + destruct R.
  - rewrite to_int_text. split; [reflexivity|]. split; [|split; [|split]].
    + intros ->. reflexivity.
    + intros a b Ha ->. unfold numeral_or_zero.
      rewrite int_of_str_inner_minus by exact Ha. reflexivity.
    + intros ds n Hne Hlen Hv.
      destruct (int_of_str_digits ds n Hne Hlen Hv) as [P Q].
      split; intros ->; unfold numeral_or_zero; [rewrite P | rewrite Q]; reflexivity.
    + intros Hlen. unfold numeral_or_zero.
      destruct (int_of_str (filter keeps s)) as [n|] eqn:E; [|reflexivity].
      apply int_of_str_digit_count in E. rewrite filter_isdigit_keeps in E.
      unfold max_str_digits in E. lia.
Qed.

End ToInt.

(** ** The stable sort *)

Section SortFacts.
Context {A K : Type} (leb : K -> K -> bool) (eqk : K -> K -> bool) (key : A -> K).
Hypothesis leb_refl : forall a, leb a a = true.
Hypothesis leb_total : forall a b, leb a b = true \/ leb b a = true.
Hypothesis leb_trans : forall a b c, leb a b = true -> leb b c = true -> leb a c = true.
Hypothesis eqk_eq : forall a b, eqk a b = true <-> a = b.

Let le_key (x y : A) : Prop := leb (key x) (key y) = true.

Lemma insert_by_perm (x : A) (l : list A) : Permutation (x :: l) (insert_by leb key x l).
Proof.
  induction l as [|y r IH]; simpl; auto.
  destruct (leb (key x) (key y)); auto.
  rewrite perm_swap. constructor. exact IH.
Qed.

Lemma sort_by_perm (l : list A) : Permutation l (sort_by leb key l).
Proof.
  induction l as [|x r IH]; simpl; auto.
  rewrite <- insert_by_perm. constructor. exact IH.
Qed.

Lemma insert_by_sorted (x : A) (l : list A) :
  StronglySorted le_key l -> StronglySorted le_key (insert_by leb key x l).
Proof.
  induction 1 as [|y r Hs IH Hall]; simpl.
  - repeat constructor.
  - destruct (leb (key x) (key y)) eqn:E.
    + constructor; [constructor; assumption|].
      constructor; [exact E|].
      rewrite Forall_forall in *. intros z Hz.
      apply (leb_trans _ (key y)); [exact E | apply Hall, Hz].
    + constructor; [exact IH|].
      assert (Hyx : le_key y x) by (destruct (leb_total (key x) (key y)); [congruence | assumption]).
      rewrite Forall_forall in *. intros z Hz.
      apply (Permutation_in _ (Permutation_sym (insert_by_perm x r))) in Hz.
      destruct Hz as [<-|Hz]; [exact Hyx | apply Hall, Hz].
Qed.

Lemma sort_by_sorted (l : list A) : StronglySorted le_key (sort_by leb key l).
Proof.
  induction l as [|x r IH]; simpl; [constructor | apply insert_by_sorted, IH].
Qed.

(** Inserting does not move a record past another record of its key. *)
Lemma insert_by_stable (k : K) (x : A) (l : list A) :
  filter (fun y => eqk (key y) k) (insert_by leb key x l)
  = filter (fun y => eqk (key y) k) (x :: l).
Proof.
  induction l as [|y r IH]; [reflexivity|].
  simpl insert_by. destruct (leb (key x) (key y)) eqn:E; [reflexivity|].
  simpl. simpl in IH. rewrite IH.
  destruct (eqk (key x) k) eqn:Ex, (eqk (key y) k) eqn:Ey; try reflexivity.
  apply eqk_eq in Ex, Ey. rewrite Ex, Ey, leb_refl in E. discriminate.
Qed.

Lemma sort_by_stable (k : K) (l : list A) :
  filter (fun y => eqk (key y) k) (sort_by leb key l)
  = filter (fun y => eqk (key y) k) l.
Proof.
  induction l as [|x r IH]; [reflexivity|].
  simpl sort_by. rewrite insert_by_stable. simpl. rewrite IH. reflexivity.
Qed.

End SortFacts.

(** ** The row normalizer and the snapshot *)

Section Snapshot.
Context {RT : Runtime}.





Lemma truthy_nonempty (s : pystr) : truthy s = true <-> s <> [].
Proof. destruct s; simpl; split; congruence. Qed.

Lemma main_normalize_result (ov : overrides) (rows : list row) :
  forall acc,
    match main_normalize ov rows acc with
    | Ok _ => Forall (fun r => kept ov r = true -> quantity_ok (resolved_qty ov r)) rows
    | Raise e =>
        (e = OverflowError \/ e = ValueError) /\
        exists pre r post,
          rows = pre ++ r :: post /\ kept ov r = true /\
          to_int (resolved_qty ov r) = Raise e /\
          Forall (fun r => kept ov r = true -> quantity_ok (resolved_qty ov r)) pre
    | Diverge => False
    end.
Proof.
  induction rows as [|r rest IH]; intros acc; [constructor|].
  cbn [main_normalize]. fold (resolved_sku ov r). fold (kept ov r).
  destruct (kept ov r) eqn:K; cbn [negb].
  - fold (resolved_qty ov r). pose proof (to_int_result (resolved_qty ov r)) as Q.
    destruct (to_int (resolved_qty ov r)) as [q|e|] eqn:E.
    + match goal with |- match main_normalize ov rest ?a with _ => _ end =>
        specialize (IH a); destruct (main_normalize ov rest a) as [items|e|] end.
      * constructor; [intros _; exact Q | exact IH].
      * destruct IH as [He (pre & r' & post & -> & Hk & Ht & Hp)]. split; [exact He|].
        exists (r :: pre), r', post. repeat split; try assumption.
        constructor; [intros _; exact Q | exact Hp].
      * exact IH.
    + split; [exact Q|]. exists [], r, rest. repeat split; try assumption. constructor.
    + exact Q.
  - specialize (IH acc). destruct (main_normalize ov rest acc) as [items|e|].
    + constructor; [intros; congruence | exact IH].
    + destruct IH as [He (pre & r' & post & -> & Hk & Ht & Hp)]. split; [exact He|].
      exists (r :: pre), r', post. repeat split; try assumption.
      constructor; [intros; congruence | exact Hp].
    + exact IH.
Qed.


Lemma encodable_perm (a b : list item) : Permutation a b -> encodable a = encodable b.
Proof.
  intros P. unfold encodable.
  induction P as [|x l l' _ IH|x y l|l l' l'' _ IH1 _ IH2]; cbn [forallb].
  - reflexivity.
  - rewrite IH. reflexivity.
  - rewrite !andb_assoc, (andb_comm (forallb _ (SKU y ++ Model y))). reflexivity.
  - congruence.
Qed.

(** What [main_write] does on a non-empty collection that normalizes. *)
Lemma main_write_run (ov : overrides) (rows : list row) (items : list item) (w : world) :
  rows <> [] ->
  main_normalize ov rows [] = Ok items ->
  main_write ov rows w =
    if encodable (sort_by str_leb SKU items) then
      (Ok tt,
       record (Log INFO (done_message (sort_by str_leb SKU items)))
         (record (WriteText out_path (sort_by str_leb SKU items))
            (record (Mkdir out_dir) w)))
    else
      (Raise ValueError, record (Truncate out_path) (record (Mkdir out_dir) w)).
Proof.
  intros Hne Hn. unfold main_write, bind, lift.
  destruct rows as [|r rest]; [congruence|].
  unfold ret. rewrite Hn. unfold emit at 1. unfold write_text.
  destruct (encodable (sort_by str_leb SKU items)); reflexivity.
Qed.

(** C2.  The content that [main_write] passes to the write lists the kept
    records sorted ascending by SKU under the comparison of strings,
    whatever the order the rows were collected in, and records of equal SKU
    keep the order they had.  When this content can be encoded it is what
    the snapshot holds; when it cannot (a lone surrogate in a SKU or in a
    model) the file is left empty and the run ends with the encoder's
    error.  Nothing else is ever written. *)
Theorem snapshot_sorted_by_sku (ov : overrides) (rows : list row) (items : list item) (w : world) :
  rows <> [] ->
  main_normalize ov rows [] = Ok items ->
  exists content,
    StronglySorted (fun a b => str_leb (SKU a) (SKU b) = true) content /\
    Permutation items content /\
    (forall k, filter (fun it => str_eqb (SKU it) k) content
               = filter (fun it => str_eqb (SKU it) k) items) /\
    (encodable content = true ->
     main_write ov rows w
     = (Ok tt,
        record (Log INFO (done_message content))
          (record (WriteText out_path content) (record (Mkdir out_dir) w)))) /\
    (encodable content = false ->
     main_write ov rows w
     = (Raise ValueError, record (Truncate out_path) (record (Mkdir out_dir) w))) /\
    (forall p c, In (WriteText p c) (happened w (snd (main_write ov rows w))) ->
       p = out_path /\ c = content /\ encodable content = true).
Proof.
  intros Hne Hn. exists (sort_by str_leb SKU items).
  split; [apply sort_by_sorted; [apply str_leb_total | apply str_leb_trans]|].
  split; [apply sort_by_perm|].
  split; [intros k; apply sort_by_stable; [apply str_leb_refl | apply str_eqb_eq]|].
  rewrite (main_write_run ov rows items w Hne Hn).
  destruct (encodable (sort_by str_leb SKU items)) eqn:E.
  - split; [reflexivity|]. split; [discriminate|].
    intros p c. unfold happened. cbn [snd record events].
    rewrite <- !app_assoc, skipn_app, skipn_all, Nat.sub_diag. cbn [skipn app].
    intros [H|[H|[H|[]]]]; try discriminate. injection H as <- <-. auto.
  - split; [discriminate|]. split; [reflexivity|].
    intros p c. unfold happened. cbn [snd record events].
    rewrite <- !app_assoc, skipn_app, skipn_all, Nat.sub_diag. cbn [skipn app].
    intros [H|[H|[]]]; discriminate.
Qed.

Lemma main_rows_run (fuel : nat) (ov : overrides) (token site_id item_id table_name : pystr)
    (col_names : list pystr) (w : world) :
  main_rows fuel ov token site_id item_id table_name col_names w =
    match main_collect_rows fuel token col_names
            (Some (rows_url site_id item_id table_name)) []
            (record (Log INFO loading_message) w) with
    | (Ok rows, w1) => main_write ov rows w1
    | (Raise e, w1) => (Raise e, w1)
    | (Diverge, w1) => (Diverge, w1)
    end.
Proof. reflexivity. Qed.

(** What a completed normalization returns, whatever the quantities. *)
Lemma main_normalize_inv (ov : overrides) (rows : list row) (acc out : list item) :
  main_normalize ov rows acc = Ok out ->
  exists items, out = acc ++ items /\
    Forall2 (record_of ov) (filter (kept ov) rows) items.
Proof.
  revert acc out. induction rows as [|r rest IH]; intros acc out H; simpl in H.
  - injection H as <-. exists []. rewrite app_nil_r. split; [reflexivity | constructor].
  - fold (resolved_sku ov r) in H. fold (kept ov r) in H.
    simpl. destruct (kept ov r) eqn:E; simpl in H.
    + fold (resolved_model ov r) in H. fold (resolved_qty ov r) in H.
      destruct (to_int (resolved_qty ov r)) as [n| |] eqn:Hq; try discriminate.
      destruct (IH _ _ H) as [its [-> HF]].
      eexists. rewrite <- app_assoc. split; [reflexivity|].
      constructor; [|exact HF]. repeat split; assumption.
    + apply IH, H.
Qed.

(** C3 (amended).  When the paginated collector ends with zero rows, the
    run aborts with exit code 2 and nothing happens after the collection
    but the error record.  A snapshot is written only from a non-empty
    collection, to the fixed path, and it holds one record for each
    collected row with a non-empty resolved SKU: none at all when no row
    has one. *)
Theorem zero_rows_is_fatal (fuel : nat) (ov : overrides)
    (token site_id item_id table_name : pystr) (col_names : list pystr)
    (w w1 : world) (rows : list row) :
  main_collect_rows fuel token col_names (Some (rows_url site_id item_id table_name)) []
    (record (Log INFO loading_message) w) = (Ok rows, w1) ->
  (rows = [] ->
     main_rows fuel ov token site_id item_id table_name col_names w
     = (Raise (SystemExit 2), record (Log ERROR zero_rows_message) w1)) /\
  (forall res w',
     main_rows fuel ov token site_id item_id table_name col_names w = (res, w') ->
     exists new, events w' = events w1 ++ new /\
       forall p c, In (WriteText p c) new ->
         rows <> [] /\ p = out_path /\
         List.length c = List.length (filter (kept ov) rows) /\
         exists items,
           main_normalize ov rows [] = Ok items /\ Permutation items c /\
           Forall2 (record_of ov) (filter (kept ov) rows) items).
Proof.
  intros Hc. rewrite main_rows_run, Hc. split.
  - intros ->. reflexivity.
  - intros res w' Hw. destruct rows as [|r rest].
    + injection Hw as <- <-. exists [Log ERROR zero_rows_message].
      split; [reflexivity|]. intros p c [H|[]]. discriminate.
    + unfold main_write, bind, lift, ret in Hw.
      destruct (main_normalize ov (r :: rest) []) as [items| e |] eqn:Hn.
      * unfold emit at 1 in Hw. unfold write_text in Hw.
        destruct (encodable (sort_by str_leb SKU items)).
        -- injection Hw as <- <-.
           exists [Mkdir out_dir; WriteText out_path (sort_by str_leb SKU items);
                   Log INFO (done_message (sort_by str_leb SKU items))].
           split; [simpl; rewrite <- !app_assoc; reflexivity|].
           intros p c [H|[H|[H|[]]]]; try discriminate.
           injection H as <- <-.
           destruct (main_normalize_inv _ _ _ _ Hn) as [its [E HF]].
           simpl in E. subst its.
           split; [discriminate|]. split; [reflexivity|]. split.
           ++ rewrite <- (Permutation_length (sort_by_perm str_leb SKU items)).
              symmetry. exact (Forall2_length HF).
           ++ exists items. split; [reflexivity|]. split; [apply sort_by_perm | exact HF].
        -- injection Hw as <- <-.
           exists [Mkdir out_dir; Truncate out_path].
           split; [simpl; rewrite <- !app_assoc; reflexivity|].
           intros p c [H|[H|[]]]; discriminate.
      * injection Hw as <- <-. exists []. rewrite app_nil_r.
        split; [reflexivity|]. intros p c [].
      * injection Hw as <- <-. exists []. rewrite app_nil_r.
        split; [reflexivity|]. intros p c [].
Qed.

End Snapshot.

(** ** Waits: [wait_for] and [time.sleep] *)

Section Waits.
Context {RT : Runtime}.



Lemma digits_value_decimal (s : pystr) (acc : Z) :
  forallb isdecimal s = true -> exists n, digits_value acc s = Some n.
Proof.
  revert acc; induction s as [|c r IH]; intros acc; simpl.
  - exists acc. reflexivity.
  - unfold isdecimal at 1. rewrite andb_true_iff. intros [Hc Hr].
    destruct (decimal_value c); [apply IH, Hr | discriminate].
Qed.


Lemma wait_for_outcome (h : option pystr) (b : number) :
  match wait_for h b with
  | Ok _ => True
  | Raise e => e = ValueError
  | Diverge => False
  end.
Proof.
  unfold wait_for. destruct h as [h|]; [|exact I].
  destruct (truthy h && isdigit h); [|exact I].
  unfold float_of_digits. destruct (digits_value 0 h); [exact I | reflexivity].
Qed.

Lemma sleep_check_outcome (wt : number) :
  match sleep_check wt with
  | Ok _ => True
  | Raise e => e = ValueError \/ e = OverflowError
  | Diverge => False
  end.
Proof.
  unfold sleep_check. destruct wt as [n|f].
  - destruct (_ || _); [auto|]. destruct (n <? 0); auto.
  - destruct (Prim2SF f); auto; cbv zeta;
      (destruct (_ && _); [destruct (PrimFloat.ltb f 0); auto | auto]).
Qed.





(** One iteration of the loop of [graph_get]. *)
Lemma graph_get_loop_step (url token : pystr) (params : option (dict pystr))
    (mr todo : nat) (attempt : Z) (backoff : number) (w : world) :
  graph_get_loop url token params mr (S todo) attempt backoff w =
    let r := server w (served w) in
    let w1 := sent (HttpGet url (py "Bearer " ++ token) params) w in
    if status_code r =? 200 then (parsed r, w1)
    else if retriable (status_code r) then
      match wait_for (retry_after r) backoff with
      | Ok wt =>
          let w2 := record (Log WARNING (transient_message (status_code r) attempt mr wt)) w1 in
          match sleep_check wt with
          | Ok _ =>
              graph_get_loop url token params mr todo (attempt + 1) (next_backoff backoff)
                (record (Sleep wt) w2)
          | Raise e => (Raise e, w2)
          | Diverge => (Diverge, w2)
          end
      | Raise e => (Raise e, w1)
      | Diverge => (Diverge, w1)
      end
    else (Raise (SystemExit 2), record (Log ERROR (get_failed_message url r)) w1).
Proof.
  cbv zeta. simpl graph_get_loop. unfold bind at 1. unfold send at 1.
  destruct (status_code (server w (served w)) =? 200) eqn:E200.
  - unfold json_of, parsed. destruct (json (server w (served w))); reflexivity.
  - destruct (retriable (status_code (server w (served w)))) eqn:Er.
    + unfold bind at 1. unfold lift at 1.
      destruct (wait_for (retry_after (server w (served w))) backoff) as [wt|e|];
        [|reflexivity|reflexivity].
      unfold bind at 1. unfold emit at 1. unfold bind at 1. unfold sleep.
      unfold bind at 1. unfold lift at 1.
      destruct (sleep_check wt); reflexivity.
    + reflexivity.
Qed.

Lemma graph_get_loop_done (url token : pystr) (params : option (dict pystr))
    (mr : nat) (attempt : Z) (backoff : number) (w : world) :
  graph_get_loop url token params mr 0 attempt backoff w
  = (Raise (SystemExit 2), record (Log ERROR (retries_message url)) w).
Proof. reflexivity. Qed.

End Waits.

(** The cases of one iteration: [H] is the equation of a run of the loop
    with at least one attempt left. *)
Ltac loop_cases H r w1 :=
  rewrite graph_get_loop_step in H; cbv zeta in H;
  match type of H with
  | context [server ?w (served ?w)] => set (r := server w (served w)) in *
  end;
  match type of H with
  | context [sent ?e ?w] => set (w1 := sent e w) in *
  end.

Ltac loop_split r backoff :=
  let E200 := fresh "E200" in
  let Er := fresh "Er" in
  let Ew := fresh "Ew" in
  let Es := fresh "Es" in
  let Ow := fresh "Ow" in
  let Os := fresh "Os" in
  let wt := fresh "wt" in
  let e := fresh "e" in
  destruct (status_code r =? 200) eqn:E200;
  [|destruct (retriable (status_code r)) eqn:Er;
    [pose proof (wait_for_outcome (retry_after r) backoff) as Ow;
     destruct (wait_for (retry_after r) backoff) as [wt|e|] eqn:Ew;
     [pose proof (sleep_check_outcome wt) as Os;
      destruct (sleep_check wt) as [[]|e|] eqn:Es; [| |destruct Os]
     | |destruct Ow]
    |]].

(** ** The fetcher: [graph_get] *)

Section Fetcher.
Context {RT : Runtime}.

Lemma graph_get_loop_frame (url token : pystr) (params : option (dict pystr)) (mr : nat) :
  forall (todo : nat) (attempt : Z) (backoff : number) (w w' : world) (res : result body),
    graph_get_loop url token params mr todo attempt backoff w = (res, w') ->
    server w' = server w /\ environ w' = environ w /\
    (served w <= served w' <= served w + todo)%nat /\
    (todo <> O -> served w < served w')%nat /\
    (exists new, events w' = events w ++ new) /\
    res <> Diverge.
Proof.
  induction todo as [|todo IH]; intros attempt backoff w w' res H.
  - rewrite graph_get_loop_done in H. injection H as <- <-. simpl.
    repeat split; try lia; try congruence.
    exists [Log ERROR (retries_message url)]. reflexivity.
  - loop_cases H r w1. loop_split r backoff.
    + injection H as <- <-. simpl. repeat split; try lia; try congruence.
      * eexists; reflexivity.
      * unfold parsed. destruct (json r); discriminate.
    + apply IH in H. destruct H as (Hs & He & Hn & Hp & [new Hv] & Hd).
      simpl in *. repeat split; try assumption; try lia.
      eexists. rewrite Hv, <- !app_assoc. reflexivity.
    + injection H as <- <-. simpl. repeat split; try lia; try congruence.
      eexists. rewrite <- !app_assoc. reflexivity.
    + injection H as <- <-. simpl. repeat split; try lia; try congruence.
      eexists; reflexivity.
    + injection H as <- <-. simpl. repeat split; try lia; try congruence.
      eexists. rewrite <- !app_assoc. reflexivity.
Qed.

Lemma graph_get_loop_ok (url token : pystr) (params : option (dict pystr)) (mr : nat) :
  forall (todo : nat) (attempt : Z) (backoff : number) (w w' : world) (b : body),
    graph_get_loop url token params mr todo attempt backoff w = (Ok b, w') ->
    (served w < served w')%nat /\
    status_code (server w (pred (served w'))) = 200 /\
    json (server w (pred (served w'))) = Some b.
Proof.
  induction todo as [|todo IH]; intros attempt backoff w w' b H.
  - rewrite graph_get_loop_done in H. discriminate.
  - loop_cases H r w1. loop_split r backoff; try discriminate.
    + injection H as Hp <-. simpl. fold r. apply Z.eqb_eq in E200.
      unfold parsed in Hp. destruct (json r); [|discriminate].
      injection Hp as ->. auto.
    + apply IH in H. simpl in H. destruct H as (H1 & H2 & H3).
      split; [lia|]. split; assumption.
Qed.





Lemma happened_app (w w' : world) (new : list event) :
  events w' = events w ++ new -> happened w w' = new.
Proof.
  intros H. unfold happened. rewrite H, skipn_app, skipn_all, Nat.sub_diag. reflexivity.
Qed.








Lemma die_raises (msg : pystr) (code : Z) (w : world) :
  die msg code w = (Raise (SystemExit code), record (Log ERROR msg) w).
Proof. reflexivity. Qed.

(** C10.  [graph_get] ends in one of two ways.  When it returns, what it
    returns is the parsed body of the last response it received, and that
    response has status 200.  Every other path raises.  In particular the
    statements after the loop never return the fallback dictionary: [die]
    always raises [SystemExit], so that path ends the run. *)
Theorem graph_get_returns_200_body (url token : pystr) (params : option (dict pystr))
    (max_retries : nat) (w : world) :
  match graph_get url token params max_retries w with
  | (Ok b, w') =>
      (served w < served w')%nat /\
      status_code (server w (pred (served w'))) = 200 /\
      parsed (server w (pred (served w'))) = Ok b
  | (Raise e, _) => True
  | (Diverge, _) => False
  end /\
  (forall msg code w0, die msg code w0 = (Raise (SystemExit code), record (Log ERROR msg) w0)) /\
  (forall attempt backoff w0,
     graph_get_loop url token params max_retries 0 attempt backoff w0
     = (Raise (SystemExit 2), record (Log ERROR (retries_message url)) w0)).
Proof.
  split; [|split].
  - unfold graph_get.
    destruct (graph_get_loop url token params max_retries max_retries 1 (NFloat 2) w)
      as [res w'] eqn:H.
    destruct res as [b| e |].
    + apply graph_get_loop_ok in H. destruct H as (H1 & H2 & H3).
      split; [exact H1|]. split; [exact H2|]. unfold parsed. rewrite H3. reflexivity.
    + exact I.
    + apply graph_get_loop_frame in H. destruct H as (_ & _ & _ & _ & _ & H). congruence.
  - intros. apply die_raises.
  - intros. apply graph_get_loop_done.
Qed.


End Fetcher.

(** ** The paginated row collector *)

Section Collector.
Context {RT : Runtime}.

Lemma graph_get_default_200 (url token : pystr) (w : world) (p : body) :
  status_code (server w (served w)) = 200 ->
  json (server w (served w)) = Some p ->
  graph_get_default url token w = (Ok p, sent (HttpGet url (py "Bearer " ++ token) None) w).
Proof.
  intros Hs Hj. unfold graph_get_default, graph_get.
  rewrite graph_get_loop_step. cbv zeta. rewrite Hs. simpl Z.eqb. cbv iota.
  unfold parsed. rewrite Hj. reflexivity.
Qed.

Lemma url_truthy_false (l : option pystr) :
  url_truthy l = false <-> l = None \/ l = Some [].
Proof.
  destruct l as [[|c s]|]; simpl; split; intros H; auto; try discriminate.
  destruct H as [H|H]; discriminate.
Qed.

Lemma url_truthy_true (l : option pystr) :
  url_truthy l = true -> exists u, l = Some u /\ truthy u = true.
Proof.
  destruct l as [u|]; simpl; [|discriminate]. intros H. exists u. auto.
Qed.

Lemma main_collect_rows_step (fuel : nat) (token : pystr) (col_names : list pystr)
    (u : pystr) (acc : list row) (w : world) (p : body) :
  truthy u = true ->
  status_code (server w (served w)) = 200 ->
  json (server w (served w)) = Some p ->
  main_collect_rows (S fuel) token col_names (Some u) acc w
  = main_collect_rows fuel token col_names (b_next_link p)
      (append_rows col_names (b_value p) acc)
      (sent (HttpGet u (py "Bearer " ++ token) None) w).
Proof.
  intros Hu Hs Hj. simpl main_collect_rows. rewrite Hu. unfold bind at 1.
  rewrite (graph_get_default_200 u token w p Hs Hj). reflexivity.
Qed.

Lemma main_collect_rows_stop (fuel : nat) (token : pystr) (col_names : list pystr)
    (l : option pystr) (acc : list row) (w : world) :
  url_truthy l = false ->
  main_collect_rows fuel token col_names l acc w = (Ok acc, w).
Proof.
  intros H. destruct l as [u|]; simpl in H.
  - destruct fuel; simpl; rewrite H; reflexivity.
  - destruct fuel; reflexivity.
Qed.

Lemma main_collect_rows_pages (token : pystr) (col_names : list pystr) :
  forall (pages : list body) (fuel : nat) (u : pystr) (acc : list row) (w : world),
    truthy u = true -> chain pages -> serves w pages ->
    (List.length pages <= fuel)%nat ->
    exists w',
      main_collect_rows fuel token col_names (Some u) acc w
      = (Ok (rows_of col_names pages acc), w') /\
      served w' = (served w + List.length pages)%nat /\
      events w' = events w ++ gets token (page_urls u pages).
Proof.
  induction pages as [|p rest IH]; intros fuel u acc w Hu Hc Hs Hf; [destruct Hc|].
  destruct fuel as [|fuel]; [simpl in Hf; lia|].
  destruct (Hs O p eq_refl) as [H200 Hj]. rewrite Nat.add_0_r in H200, Hj.
  rewrite (main_collect_rows_step _ _ _ _ _ _ p Hu H200 Hj).
  set (w1 := sent (HttpGet u (py "Bearer " ++ token) None) w).
  destruct rest as [|q rest'].
  - simpl in Hc. rewrite (main_collect_rows_stop _ _ _ _ _ _ Hc).
    exists w1. split; [reflexivity|]. split; [simpl; lia | reflexivity].
  - destruct Hc as [Ht Hc]. destruct (url_truthy_true _ Ht) as [u' [El Hu']].
    rewrite El.
    destruct (IH fuel u' (append_rows col_names (b_value p) acc) w1 Hu' Hc)
      as [w' (R1 & R2 & R3)].
    + intros i p' Hi. replace (served w1 + i)%nat with (served w + S i)%nat by (simpl; lia).
      apply (Hs (S i) p' Hi).
    + simpl in Hf |- *. lia.
    + exists w'. split; [exact R1|]. split; [rewrite R2; simpl; lia|].
      rewrite R3. unfold page_urls, gets.
      change (removelast (p :: q :: rest')) with (p :: removelast (q :: rest')).
      simpl map. rewrite El. simpl or_empty. simpl events.
      rewrite <- app_assoc. reflexivity.
Qed.

Lemma main_collect_rows_diverges (token : pystr) (col_names : list pystr) :
  forall (fuel : nat) (u : pystr) (acc : list row) (w : world),
    truthy u = true -> never_ends w ->
    fst (main_collect_rows fuel token col_names (Some u) acc w) = Diverge.
Proof.
  induction fuel as [|fuel IH]; intros u acc w Hu Hn.
  - simpl. rewrite Hu. reflexivity.
  - destruct (Hn (served w)) as [H200 [p [Hj Ht]]].
    rewrite (main_collect_rows_step _ _ _ _ _ _ p Hu H200 Hj).
    destruct (url_truthy_true _ Ht) as [u' [El Hu']]. rewrite El.
    apply IH; [exact Hu' | exact Hn].
Qed.

(** C8 (amended).  The collector fetches a page, appends its rows to the
    accumulator and goes on with the URL of the next link of the page while
    that link counts as true; it ends at the first page whose next link is
    absent, null or empty, however many rows (none included) the pages
    carry.  So over a finite sequence of pages it returns the rows of all
    of them in order after one request per page, to the first URL and then
    to each next link, and over pages that never stop announcing a next
    link it never ends.  (The server answers each request with status
    200.) *)
Theorem pagination_follows_next_links (token : pystr) (col_names : list pystr)
    (u : pystr) (acc : list row) (w : world) :
  truthy u = true ->
  (forall l, url_truthy l = false <-> l = None \/ l = Some []) /\
  (forall pages fuel,
     chain pages -> serves w pages -> (List.length pages <= fuel)%nat ->
     exists w',
       main_collect_rows fuel token col_names (Some u) acc w
       = (Ok (rows_of col_names pages acc), w') /\
       served w' = (served w + List.length pages)%nat /\
       events w' = events w ++ gets token (page_urls u pages)) /\
  (never_ends w ->
   forall fuel, fst (main_collect_rows fuel token col_names (Some u) acc w) = Diverge).
Proof.
  intros Hu. split; [exact url_truthy_false|]. split.
  - intros pages fuel Hc Hs Hf. apply main_collect_rows_pages; assumption.
  - intros Hn fuel. apply main_collect_rows_diverges; assumption.
Qed.

End Collector.

(** ** The environment resolver: [require_env] *)

Section Environment.
Context {RT : Runtime}.

Lemma strip_empty (v : pystr) : strip v = [] <-> forallb isspace v = true.
Proof.
  split.
  - intros H. destruct (strip_split v) as [pre [post [E [H1 H2]]]].
    rewrite H in E. simpl in E. rewrite E, forallb_app, H1, H2. reflexivity.
  - intros H. unfold strip.
    assert (E : lstrip_by isspace v = []).
    { induction v as [|c r IH]; simpl in *; auto.
      apply andb_true_iff in H. destruct H as [H1 H2]. rewrite H1. auto. }
    rewrite E. reflexivity.
Qed.

Lemma is_missing_iff (w : world) (n : pystr) :
  is_missing w n = true <->
  environ w n = None \/ exists v, environ w n = Some v /\ forallb isspace v = true.
Proof.
  unfold is_missing, env_value.
  destruct (environ w n) as [v|].
  - destruct (strip v) as [|c r] eqn:E; simpl.
    + apply strip_empty in E. split; auto. right. exists v. auto.
    + split; [discriminate|]. intros [H|[v' [H1 H2]]]; [discriminate|].
      injection H1 as <-. apply strip_empty in H2. congruence.
  - simpl. split; auto.
Qed.

Lemma dict_get_set_same {V} (d : dict V) (k : pystr) (v : V) :
  dict_get (dict_set d k v) k = Some v.
Proof.
  induction d as [|[k' v'] r IH]; simpl.
  - rewrite str_eqb_refl. reflexivity.
  - destruct (str_eqb k' k) eqn:E; simpl; rewrite E; auto.
Qed.

Lemma dict_get_set_other {V} (d : dict V) (k k' : pystr) (v : V) :
  k <> k' -> dict_get (dict_set d k v) k' = dict_get d k'.
Proof.
  intros Hne. induction d as [|[k0 v0] r IH]; simpl.
  - destruct (str_eqb k k') eqn:E; [apply str_eqb_eq in E; congruence | reflexivity].
  - destruct (str_eqb k0 k) eqn:E; simpl.
    + apply str_eqb_eq in E. subst k0.
      destruct (str_eqb k k') eqn:E'; [apply str_eqb_eq in E'; congruence | reflexivity].
    + destruct (str_eqb k0 k'); auto.
Qed.

Lemma require_env_loop_run (w : world) (names : list pystr) (out : dict pystr)
    (missing : list pystr) :
  require_env_loop names out missing w
  = (Ok (collected w names out, missing ++ filter (is_missing w) names), w).
Proof.
  revert out missing. induction names as [|n rest IH]; intros out missing.
  - simpl. rewrite app_nil_r. reflexivity.
  - simpl require_env_loop. unfold bind, getenv.
    simpl filter. unfold collected. simpl fold_left.
    fold (env_value w n). fold (is_missing w n).
    destruct (is_missing w n) eqn:E.
    + rewrite IH, <- app_assoc. reflexivity.
    + rewrite IH. reflexivity.
Qed.

Lemma collected_get (w : world) (names : list pystr) (out : dict pystr) (n : pystr) :
  filter (is_missing w) names = [] ->
  In n names \/ dict_get out n = Some (env_value w n) ->
  dict_get (collected w names out) n = Some (env_value w n).
Proof.
  revert out. induction names as [|a rest IH]; intros out Hm Hn.
  - destruct Hn as [[]|Hn]. exact Hn.
  - simpl in Hm. destruct (is_missing w a) eqn:E; [discriminate|].
    unfold collected. simpl fold_left. rewrite E. apply IH; [exact Hm|].
    destruct (list_eq_dec N.eq_dec a n) as [->|Hne].
    + right. apply dict_get_set_same.
    + destruct Hn as [[H|H]|H]; [congruence | left; exact H|].
      right. rewrite dict_get_set_other by exact Hne. exact H.
Qed.

Lemma collected_keys (w : world) (names : list pystr) (out : dict pystr) (k v : pystr) :
  dict_get (collected w names out) k = Some v ->
  In k names \/ dict_get out k = Some v.
Proof.
  revert out. induction names as [|a rest IH]; intros out H.
  - right. exact H.
  - unfold collected in H. simpl fold_left in H.
    destruct (IH _ H) as [Hin|Hg]; [left; right; exact Hin|].
    destruct (is_missing w a); [right; exact Hg|].
    destruct (list_eq_dec N.eq_dec a k) as [->|Hne]; [left; left; reflexivity|].
    rewrite dict_get_set_other in Hg by exact Hne. right. exact Hg.
Qed.

Lemma require_env_run (w : world) (names : list pystr) :
  require_env names w =
    match filter (is_missing w) names with
    | [] => (Ok (collected w names []), w)
    | missing => (Raise (SystemExit 2), record (Log ERROR (missing_message missing)) w)
    end.
Proof.
  unfold require_env. unfold bind at 1. rewrite require_env_loop_run.
  simpl fst. simpl snd. simpl app.
  destruct (filter (is_missing w) names); reflexivity.
Qed.

(** [", ".join] of a non-empty list: the first name, then every further
    name behind a separator. *)
Lemma join_cons (sep m : pystr) (ms : list pystr) :
  join sep (m :: ms) = m ++ List.concat (map (fun n => sep ++ n) ms).
Proof.
  revert m. induction ms as [|x r IH]; intros m.
  - cbn. rewrite app_nil_r. reflexivity.
  - change (join sep (m :: x :: r)) with (m ++ sep ++ join sep (x :: r)).
    rewrite IH. cbn [map List.concat]. rewrite <- app_assoc. reflexivity.
Qed.

(** C9.  A variable is missing when it is unset, empty or made of
    whitespace only.  When some of the names are missing, [require_env]
    ends the run with exit code 2 after one error record, whose text is
    ["Missing required env vars: "], the first missing name, each further
    missing name behind [", "], in order, a newline and the advice; for
    the seven mandatory names this is the exit code and the record of the
    script.  When none is missing it returns a mapping that holds, for
    every name and for no other key, the stripped value, which is not
    empty. *)
Theorem require_env_reports_all_missing (names : list pystr) (w : world) :
  (forall n, is_missing w n = true <->
             environ w n = None \/
             exists v, environ w n = Some v /\ forallb isspace v = true) /\
  (forall m ms,
     filter (is_missing w) names = m :: ms ->
     require_env names w
     = (Raise (SystemExit 2),
        record (Log ERROR (py "Missing required env vars: "
                           ++ m ++ List.concat (map (fun n => py ", " ++ n) ms) ++ newline
                           ++ py "➡️ Check GitHub Secrets / workflow env mapping.")) w)) /\
  (forall m ms,
     filter (is_missing w) mandatory = m :: ms ->
     forall fuel,
       script fuel w
       = (Ok 2,
          record (Log ERROR (py "Missing required env vars: "
                             ++ m ++ List.concat (map (fun n => py ", " ++ n) ms) ++ newline
                             ++ py "➡️ Check GitHub Secrets / workflow env mapping.")) w)) /\
  (filter (is_missing w) names = [] ->
   exists out,
     require_env names w = (Ok out, w) /\
     (forall n, In n names ->
        exists v, environ w n = Some v /\ dict_get out n = Some (strip v) /\
                  strip v <> [] /\ strip (strip v) = strip v) /\
     (forall k v, dict_get out k = Some v -> In k names)).
Proof.
  split; [intros n; apply is_missing_iff|]. split; [|split].
  - intros m ms H. rewrite require_env_run, H. cbv iota. unfold missing_message.
    rewrite join_cons, <- !app_assoc. reflexivity.
  - intros m ms H fuel. unfold script, main. unfold bind at 1.
    rewrite require_env_run, H. cbv iota. cbn [fst snd]. unfold missing_message.
    rewrite join_cons, <- !app_assoc. reflexivity.
  - intros H. exists (collected w names []). rewrite require_env_run, H.
    split; [reflexivity|]. split.
    + intros n Hn.
      assert (Hp : is_missing w n = false).
      { destruct (is_missing w n) eqn:E; [|reflexivity].
        assert (Hf : In n (filter (is_missing w) names)) by (apply filter_In; auto).
        rewrite H in Hf. destruct Hf. }
      pose proof (collected_get w names [] n H (or_introl Hn)) as Hg.
      unfold is_missing, env_value in Hp. unfold env_value in Hg.
      destruct (environ w n) as [v|].
      * exists v. split; [reflexivity|]. split; [exact Hg|].
        split; [|apply strip_idempotent].
        apply truthy_nonempty. destruct (truthy (strip v)); [reflexivity | discriminate].
      * discriminate.
    + intros k v Hk. destruct (collected_keys _ _ _ _ _ Hk) as [Hin|Hg];
        [exact Hin | discriminate].
Qed.

End Environment.

(** ** Strings without surrounding whitespace *)

Section TrimmedStrings.

Lemma strip_trimmed (s : pystr) : trimmed (strip s).
Proof.
  split.
  - destruct (rstrip_by_split isspace (lstrip_by isspace s)) as [post [H _]].
    fold (strip s) in H. pose proof (lstrip_by_head isspace s) as Hh.
    destruct (strip s) as [|c r]; [exact I|].
    rewrite H in Hh. exact Hh.
  - unfold strip, rstrip_by. rewrite rev_involutive. apply lstrip_by_head.
Qed.

Lemma trimmed_strip (s : pystr) : trimmed s -> strip s = s.
Proof.
  intros [Hh Hl]. unfold strip.
  rewrite (lstrip_by_fixed isspace s Hh). unfold rstrip_by.
  rewrite (lstrip_by_fixed isspace (rev s) Hl). apply rev_involutive.
Qed.

Lemma trimmed_iff (s : pystr) : trimmed s <-> strip s = s.
Proof.
  split; [apply trimmed_strip|]. intros <-. apply strip_trimmed.
Qed.

End TrimmedStrings.

(** ** [to_int] on floats and on texts *)

Section ToIntTexts.
Context {RT : Runtime}.

(** X1.  [to_int] fails on nothing but a float that has no integer value:
    an infinity gives [OverflowError], a NaN gives [ValueError].  On every
    other value, and on every text, it returns an integer. *)
Theorem to_int_raises_only_on_non_finite (x : value) :
  match to_int x with
  | Ok _ => match x with VFloat f => finite f = true | _ => True end
  | Raise e =>
      exists f, x = VFloat f /\ finite f = false /\
        match Prim2SF f with
        | S754_infinity _ => e = OverflowError
        | S754_nan => e = ValueError
        | _ => False
        end
  | Diverge => False
  end.
Proof.
  destruct x as [| b | n | f | s]; try exact I.
  - unfold to_int, int_of_float, finite.
    destruct (Prim2SF f) as [s| s | |s m e] eqn:E; try reflexivity.
    + exists f. unfold finite. rewrite E. repeat split; auto.
    + exists f. unfold finite. rewrite E. repeat split; auto.
  - rewrite to_int_text. exact I.
Qed.

Lemma to_int_same_kept (s s' : pystr) :
  filter keeps s = filter keeps s' -> to_int (VStr s) = to_int (VStr s').
Proof. intros H. rewrite !to_int_text, H. reflexivity. Qed.

(** X2.  A character of a text that is neither a digit nor the minus sign
    has no effect on the integer read from it, wherever it stands. *)
Theorem to_int_ignores_other_characters (a b : pystr) (c : char) :
  keeps c = false -> to_int (VStr (a ++ c :: b)) = to_int (VStr (a ++ b)).
Proof.
  intros Hc. apply to_int_same_kept. rewrite !filter_app. simpl. rewrite Hc. reflexivity.
Qed.

End ToIntTexts.

Section RoundTrip.
Context {RT : Runtime}.

Lemma decimal_value_ascii (c : char) :
  ascii_digit c -> decimal_value c = Some (Z.of_N (c - 48)).
Proof.
  intros [H1 H2]. unfold decimal_value, decimal_zeros. cbn [decimal_in].
  assert (E : ((48 <=? c) && (c <=? 48 + 9))%N = true).
  { apply andb_true_iff. split; apply N.leb_le; lia. }
  rewrite E. reflexivity.
Qed.

Lemma keeps_ascii (c : char) : ascii_digit c -> keeps c = true.
Proof.
  intros H. unfold keeps, char_isdigit, isdecimal.
  rewrite (decimal_value_ascii c H). reflexivity.
Qed.

Lemma digits_value_app (a : Z) (x y : pystr) :
  digits_value a (x ++ y) =
  match digits_value a x with
  | Some v => digits_value v y
  | None => None
  end.
Proof.
  revert a; induction x as [|c r IH]; intros a; simpl; [reflexivity|].
  destruct (decimal_value c); [apply IH | reflexivity].
Qed.

Lemma pos_digits_value (fuel : nat) :
  forall (n : Z) (acc : pystr),
    (0 < fuel)%nat -> 0 <= n < 10 ^ Z.of_nat fuel ->
    exists ds,
      pos_digits fuel n acc = ds ++ acc /\ ds <> [] /\
      Forall ascii_digit ds /\
      (forall a, digits_value a ds = Some (a * 10 ^ Z.of_nat (List.length ds) + n)) /\
      (List.length ds = 1%nat \/ 10 ^ (Z.of_nat (List.length ds) - 1) <= n).
Proof.
  induction fuel as [|k IH]; intros n acc Hf Hn; [lia|].
  cbn [pos_digits]. cbv zeta.
  assert (Hm : 0 <= n mod 10 < 10) by (apply Z.mod_pos_bound; lia).
  assert (Hd : ascii_digit (48 + Z.to_N (n mod 10))%N) by (unfold ascii_digit; lia).
  assert (Hv : decimal_value (48 + Z.to_N (n mod 10))%N = Some (n mod 10)).
  { rewrite (decimal_value_ascii _ Hd). f_equal. lia. }
  destruct (Z.ltb_spec n 10) as [Hlt|Hge].
  - exists [(48 + Z.to_N (n mod 10))%N]. repeat split.
    + discriminate.
    + constructor; [exact Hd | constructor].
    + intros a. cbn [digits_value List.length]. rewrite Hv. f_equal.
      rewrite Z.mod_small by lia. change (10 ^ Z.of_nat 1) with 10. lia.
    + left. reflexivity.
  - assert (Hk : (0 < k)%nat).
    { destruct k; [|lia]. simpl in Hn. lia. }
    assert (Hq : 0 <= n / 10 < 10 ^ Z.of_nat k).
    { split; [apply Z.div_pos; lia|].
      apply Z.div_lt_upper_bound; [lia|].
      rewrite Nat2Z.inj_succ, Z.pow_succ_r in Hn by lia. lia. }
    destruct (IH (n / 10) ((48 + Z.to_N (n mod 10))%N :: acc) Hk Hq)
      as [ds (E & Hne & Hall & Hval & Hlow)].
    exists (ds ++ [(48 + Z.to_N (n mod 10))%N]). repeat split.
    + rewrite E, <- app_assoc. reflexivity.
    + destruct ds; discriminate.
    + apply Forall_app. split; [exact Hall | constructor; [exact Hd | constructor]].
    + intros a. rewrite digits_value_app, Hval. cbn [digits_value]. rewrite Hv. f_equal.
      rewrite length_app. simpl List.length.
      rewrite Nat2Z.inj_add. change (Z.of_nat 1) with 1.
      rewrite Z.pow_add_r by lia. change (10 ^ 1) with 10.
      pose proof (Z.div_mod n 10 ltac:(lia)). lia.
    + right. rewrite length_app. simpl List.length.
      replace (Z.of_nat (List.length ds + 1) - 1) with (Z.succ (Z.of_nat (List.length ds) - 1))
        by lia.
      assert (Hl : (0 < List.length ds)%nat) by (destruct ds; [congruence | simpl; lia]).
      rewrite Z.pow_succ_r by lia.
      pose proof (Z.div_mod n 10 ltac:(lia)).
      destruct Hlow as [Hz|Hlow]; [|lia].
      rewrite Hz. change (10 ^ (Z.of_nat 1 - 1)) with 1. lia.
Qed.

(** A numeral below [10 ^ 4300] has at most 4300 digits. *)
Lemma digits_within_limit (n : Z) (len : nat) :
  0 <= n < 10 ^ max_str_digits ->
  (0 < len)%nat ->
  len = 1%nat \/ 10 ^ (Z.of_nat len - 1) <= n ->
  (max_str_digits <? Z.of_nat len) = false.
Proof.
  intros [H0 H1] Hl H. apply Z.ltb_ge. unfold max_str_digits in *.
  destruct (Z.le_gt_cases (Z.of_nat len) 4300) as [L|L]; [exact L|]. exfalso.
  assert (P : 10 ^ 4300 <= 10 ^ (Z.of_nat len - 1)) by (apply Z.pow_le_mono_r; lia).
  assert (Q : 0 < 10 ^ 4300) by (apply Z.pow_pos_nonneg; lia).
  destruct H as [->|H]; lia.
Qed.

Lemma below_power_of_ten (n : Z) :
  0 <= n -> n < 10 ^ Z.of_nat (Z.to_nat (Z.log2 n) + 1).
Proof.
  intros Hn. rewrite Nat2Z.inj_add, Z2Nat.id by apply Z.log2_nonneg.
  change (Z.of_nat 1) with 1.
  destruct (Z.eq_dec n 0) as [->|Hne].
  - simpl. lia.
  - assert (H2 : n < 2 ^ (Z.log2 n + 1)).
    { replace (Z.log2 n + 1) with (Z.succ (Z.log2 n)) by lia.
      apply Z.log2_spec. lia. }
    assert (2 ^ (Z.log2 n + 1) <= 10 ^ (Z.log2 n + 1)).
    { apply Z.pow_le_mono_l. lia. }
    lia.
Qed.

Lemma filter_keeps_ascii (ds : pystr) : Forall ascii_digit ds -> filter keeps ds = ds.
Proof.
  induction 1 as [|c r Hc _ IH]; simpl; [reflexivity|].
  rewrite (keeps_ascii c Hc), IH. reflexivity.
Qed.

Lemma to_int_str_of_Z (n : Z) :
  Z.abs n < 10 ^ max_str_digits -> to_int (VStr (str_of_Z n)) = Ok n.
Proof.
  intros Hb.
  rewrite to_int_text. unfold str_of_Z. destruct (Z.ltb_spec n 0) as [Hneg|Hpos].
  - destruct (pos_digits_value (Z.to_nat (Z.log2 (- n)) + 1) (- n) [])
      as [ds (E & Hne & Hall & Hval & Hlow)]; [lia | |].
    { split; [lia | apply below_power_of_ten; lia]. }
    rewrite E, app_nil_r. cbn [filter].
    change (keeps minus_sign) with true. cbv iota.
    rewrite (filter_keeps_ascii ds Hall).
    unfold numeral_or_zero, int_of_str. rewrite N.eqb_refl.
    destruct ds as [|c r]; [congruence|].
    unfold int_of_digits.
    rewrite (digits_within_limit (- n) (List.length (c :: r)))
      by (try exact Hlow; try (simpl; lia); split; lia).
    rewrite Hval. cbn [option_map]. f_equal; lia.
  - destruct (pos_digits_value (Z.to_nat (Z.log2 n) + 1) n [])
      as [ds (E & Hne & Hall & Hval & Hlow)]; [lia | |].
    { split; [lia | apply below_power_of_ten; lia]. }
    rewrite E, app_nil_r, (filter_keeps_ascii ds Hall).
    unfold numeral_or_zero, int_of_str.
    destruct ds as [|c r]; [congruence|].
    assert (Hc : (c =? minus_sign)%N = false).
    { apply N.eqb_neq. inversion Hall as [|? ? [H1 H2] _]. unfold minus_sign. lia. }
    rewrite Hc. unfold int_of_digits.
    rewrite (digits_within_limit n (List.length (c :: r)))
      by (try exact Hlow; try (simpl; lia); split; lia).
    rewrite Hval. f_equal; lia.
Qed.

(** X3.  Reading back what [str] prints of an integer gives the integer: a
    quantity is the same whether the cell holds the number or its text.
    This holds for the integers of fewer than 4301 digits, which are those
    [str] prints: beyond, [int] refuses the text and [to_int] gives 0. *)
Theorem to_int_str_round_trip (n : Z) :
  Z.abs n < 10 ^ 4300 ->
  to_int (VStr (py_str (VInt n))) = to_int (VInt n) /\
  to_int (VStr (safe_str (VInt n))) = Ok n /\
  to_int (VStr (repeat 57%N 4301)) = Ok 0 /\
  to_int (VStr (minus_sign :: repeat 57%N 4301)) = Ok 0.
Proof.
  intros Hb. split; [|split; [|split]].
  - apply to_int_str_of_Z, Hb.
  - rewrite <- (to_int_str_of_Z n Hb). apply to_int_same_kept.
    apply filter_keeps_strip.
  - vm_compute. reflexivity.
  - vm_compute. reflexivity.
Qed.

End RoundTrip.

(** ** [safe_str] and the path normalizers *)

Section SafeStr.
Context {RT : Runtime}.

Lemma safe_str_is_trimmed (x : value) : trimmed (safe_str x).
Proof. destruct x; try apply strip_trimmed. split; exact I. Qed.

(** X4.  [safe_str] gives a string without surrounding whitespace, and the
    empty string exactly for [None] and for values whose text is blank. *)
Theorem safe_str_trimmed (x : value) :
  trimmed (safe_str x) /\
  strip (safe_str x) = safe_str x /\
  (safe_str x = [] <-> x = VNone \/ forallb isspace (py_str x) = true).
Proof.
  pose proof (safe_str_is_trimmed x) as T.
  split; [exact T|]. split; [apply trimmed_strip, T|].
  destruct x as [| b | n | f | s]; unfold safe_str.
  - split; auto.
  - rewrite strip_empty. split; [auto | intros [H|H]; [discriminate | exact H]].
  - rewrite strip_empty. split; [auto | intros [H|H]; [discriminate | exact H]].
  - rewrite strip_empty. split; [auto | intros [H|H]; [discriminate | exact H]].
  - rewrite strip_empty. split; [auto | intros [H|H]; [discriminate | exact H]].
Qed.

End SafeStr.

Section Paths.
Context {RT : Runtime}.

Lemma trimmed_prefix (c : char) (p s : pystr) :
  isspace c = false ->
  trimmed s ->
  (s = [] -> match rev (c :: p) with [] => True | x :: _ => isspace x = false end) ->
  trimmed ((c :: p) ++ s).
Proof.
  intros Hc [_ Hl] Hp. split; [exact Hc|].
  rewrite rev_app_distr.
  destruct s as [|x r].
  - simpl app at 1. apply Hp. reflexivity.
  - destruct (rev (x :: r)) as [|y t] eqn:E.
    + apply (f_equal (@List.length _)) in E. rewrite length_rev in E. discriminate.
    + exact Hl.
Qed.

Lemma startswith_app (p s : pystr) : startswith p (p ++ s) = true.
Proof.
  induction p as [|c r IH]; simpl; [reflexivity|]. rewrite N.eqb_refl. exact IH.
Qed.

Lemma with_slash_head (s : pystr) : exists t, with_slash s = 47%N :: t.
Proof.
  unfold with_slash. change (py "/") with [47%N].
  destruct s as [|c r]; [exists []; reflexivity|].
  cbn [startswith]. destruct (N.eqb_spec 47 c) as [<-|Hne]; cbn [andb negb app];
    eexists; reflexivity.
Qed.

Lemma with_slash_trimmed (s : pystr) : trimmed s -> trimmed (with_slash s).
Proof.
  intros T. unfold with_slash.
  destruct (negb (startswith (py "/") s)); [|exact T].
  change (py "/") with [47%N].
  apply trimmed_prefix; [reflexivity | exact T | intros _; reflexivity].
Qed.

Lemma normalize_site_path_cases (raw : pystr) :
  normalize_site_path raw =
    if startswith (py "/sites/") (with_slash (strip raw)) then with_slash (strip raw)
    else py "/sites" ++ with_slash (strip raw).
Proof.
  unfold normalize_site_path. cbv zeta.
  change (if negb (startswith (py "/") (strip raw)) then py "/" ++ strip raw else strip raw)
    with (with_slash (strip raw)).
  destruct (with_slash_head (strip raw)) as [t E]. rewrite E.
  destruct (startswith (py "/sites/") (47%N :: t)); reflexivity.
Qed.

(** X5.  The normalized site path always starts with "/sites/", has no
    surrounding whitespace, and normalizing it again changes nothing; a
    path that already starts with "/sites/" is only stripped. *)
Theorem normalize_site_path_prefix (raw : pystr) :
  startswith (py "/sites/") (normalize_site_path raw) = true /\
  trimmed (normalize_site_path raw) /\
  normalize_site_path (normalize_site_path raw) = normalize_site_path raw /\
  (startswith (py "/sites/") (strip raw) = true -> normalize_site_path raw = strip raw).
Proof.
  assert (P : startswith (py "/sites/") (normalize_site_path raw) = true).
  { rewrite normalize_site_path_cases.
    destruct (startswith (py "/sites/") (with_slash (strip raw))) eqn:E; [exact E|].
    destruct (with_slash_head (strip raw)) as [t Et]. rewrite Et. reflexivity. }
  assert (T : trimmed (normalize_site_path raw)).
  { rewrite normalize_site_path_cases.
    pose proof (with_slash_trimmed _ (strip_trimmed raw)) as Tw.
    destruct (startswith (py "/sites/") (with_slash (strip raw))); [exact Tw|].
    change (py "/sites") with (47%N :: [115; 105; 116; 101; 115]%N).
    apply trimmed_prefix; [reflexivity | exact Tw|].
    intros E. destruct (with_slash_head (strip raw)) as [t Et]. congruence. }
  assert (S : forall s, startswith (py "/sites/") s = true -> with_slash s = s).
  { intros s H. unfold with_slash. change (py "/") with [47%N].
    change (py "/sites/") with (47%N :: [115; 105; 116; 101; 115; 47]%N) in H.
    destruct s as [|c r]; [discriminate|]. cbn [startswith] in H |- *.
    destruct (47 =? c)%N; [reflexivity | discriminate]. }
  split; [exact P|]. split; [exact T|]. split.
  - rewrite (normalize_site_path_cases (normalize_site_path raw)).
    rewrite (trimmed_strip _ T), (S _ P), P. reflexivity.
  - intros H. rewrite normalize_site_path_cases, (S _ H), H. reflexivity.
Qed.

Lemma forallb_slashes (l : pystr) :
  forallb (fun c => (c =? 47)%N) l = true -> l = repeat 47%N (List.length l).
Proof.
  induction l as [|c r IH]; simpl; [reflexivity|].
  rewrite andb_true_iff, N.eqb_eq. intros [-> H]. f_equal. apply IH, H.
Qed.

(** X6.  The normalized drive path is what is left of the stripped path once
    its leading slashes are removed, so it never starts with a slash. *)
Theorem normalize_drive_path_slashes (raw : pystr) :
  (exists k, strip raw = repeat 47%N k ++ normalize_drive_path raw) /\
  match normalize_drive_path raw with
  | [] => True
  | c :: _ => c <> 47%N
  end.
Proof.
  unfold normalize_drive_path. split.
  - destruct (lstrip_by_split (fun c => (c =? 47)%N) (strip raw)) as [pre [H1 H2]].
    exists (List.length pre). rewrite <- (forallb_slashes pre H2). exact H1.
  - pose proof (lstrip_by_head (fun c => (c =? 47)%N) (strip raw)) as H.
    destruct (lstrip_by _ (strip raw)) as [|c r]; [exact I|].
    apply N.eqb_neq. exact H.
Qed.

End Paths.

(** ** Rows: the comprehension of line 207 *)

Section Rows.
Context {RT : Runtime}.

Lemma hd_skipn (i : nat) (l : list value) : hd VNone (skipn i l) = nth i l VNone.
Proof.
  revert l; induction i as [|i IH]; intros [|x l]; simpl; auto.
Qed.

Lemma tl_skipn (i : nat) (l : list value) : tl (skipn i l) = skipn (S i) l.
Proof.
  revert l; induction i as [|i IH]; intros [|x l]; simpl; auto.
Qed.

Lemma nth_or_none (i : nat) (l : list value) :
  (if (i <? List.length l)%nat then nth i l VNone else VNone) = nth i l VNone.
Proof.
  destruct (Nat.ltb_spec i (List.length l)); [reflexivity|].
  symmetry. apply nth_overflow. exact H.
Qed.

Lemma make_row_fill_from (cs pre : list pystr) (vals : list value) (d : row) :
  fold_left
    (fun d i =>
       dict_set d (nth i (pre ++ cs) [])
         (if (i <? List.length vals)%nat then nth i vals VNone else VNone))
    (seq (List.length pre) (List.length cs)) d
  = fill cs (skipn (List.length pre) vals) d.
Proof.
  revert pre d; induction cs as [|c cs IH]; intros pre d; [reflexivity|].
  cbn [List.length seq fold_left fill].
  rewrite nth_middle, nth_or_none, hd_skipn, tl_skipn.
  specialize (IH (pre ++ [c]) (dict_set d c (nth (List.length pre) vals VNone))).
  rewrite <- app_assoc in IH. simpl app in IH.
  rewrite length_app in IH. simpl List.length in IH.
  rewrite Nat.add_1_r in IH. exact IH.
Qed.

Lemma make_row_fill (cols : list pystr) (vals : list value) :
  make_row cols vals = fill cols vals [].
Proof. exact (make_row_fill_from cols [] vals []). Qed.

Lemma keys_dict_set {V} (d : dict V) (k : pystr) (v : V) :
  ~ In k (keys d) -> keys (dict_set d k v) = keys d ++ [k].
Proof.
  induction d as [|[k' v'] r IH]; simpl; [reflexivity|].
  intros H. destruct (str_eqb k' k) eqn:E.
  - apply str_eqb_eq in E. tauto.
  - simpl. f_equal. apply IH. tauto.
Qed.

Lemma fill_get_other (cols : list pystr) (vals : list value) (d : row) (k : pystr) :
  ~ In k cols -> dict_get (fill cols vals d) k = dict_get d k.
Proof.
  revert vals d; induction cols as [|c cs IH]; intros vals d H; [reflexivity|].
  simpl fill. rewrite IH by (simpl in H; tauto).
  apply dict_get_set_other. simpl in H. tauto.
Qed.

Lemma fill_get (cols : list pystr) :
  forall (vals : list value) (d : row) (i : nat),
    NoDup cols -> (i < List.length cols)%nat ->
    dict_get (fill cols vals d) (nth i cols []) = Some (nth i vals VNone).
Proof.
  induction cols as [|c cs IH]; intros vals d i Hn Hi; [simpl in Hi; lia|].
  inversion Hn as [|? ? Hc Hn']; subst. simpl fill. destruct i as [|j].
  - simpl nth at 1. rewrite fill_get_other by exact Hc.
    rewrite dict_get_set_same. destruct vals; reflexivity.
  - simpl nth at 1. rewrite IH by (try assumption; simpl in Hi; lia).
    destruct vals; [destruct j|]; reflexivity.
Qed.

Lemma fill_keys (cols : list pystr) :
  forall (vals : list value) (d : row),
    NoDup cols -> (forall k, In k cols -> ~ In k (keys d)) ->
    keys (fill cols vals d) = keys d ++ cols.
Proof.
  induction cols as [|c cs IH]; intros vals d Hn Hd; [simpl; rewrite app_nil_r; reflexivity|].
  inversion Hn as [|? ? Hc Hn']; subst. simpl fill.
  rewrite IH; [| exact Hn' |].
  - rewrite keys_dict_set by (apply Hd; left; reflexivity).
    rewrite <- app_assoc. reflexivity.
  - intros k Hk. rewrite keys_dict_set by (apply Hd; left; reflexivity).
    rewrite in_app_iff. intros [H|[H|[]]].
    + apply (Hd k); [right; exact Hk | exact H].
    + subst. contradiction.
Qed.

(** X7.  A row maps each column name to the cell at the same position, and
    to [None] where the row of cells is too short; its keys are the column
    names in order, and a name that is no column has no entry.  (Distinct
    column names.) *)
Theorem make_row_lookup (col_names : list pystr) (vals : list value) :
  NoDup col_names ->
  keys (make_row col_names vals) = col_names /\
  (forall i, (i < List.length col_names)%nat ->
     dict_get (make_row col_names vals) (nth i col_names []) = Some (nth i vals VNone)) /\
  (forall i, (List.length vals <= i < List.length col_names)%nat ->
     dict_get (make_row col_names vals) (nth i col_names []) = Some VNone) /\
  (forall k, ~ In k col_names -> dict_get (make_row col_names vals) k = None).
Proof.
  intros Hn. rewrite make_row_fill. split; [|split; [|split]].
  - rewrite fill_keys; [reflexivity | exact Hn | intros k _ []].
  - intros i Hi. apply fill_get; assumption.
  - intros i [H1 H2]. rewrite fill_get by assumption.
    rewrite nth_overflow by exact H1. reflexivity.
  - intros k Hk. rewrite fill_get_other by exact Hk. reflexivity.
Qed.

End Rows.

(** ** Column lookup: [pick_col] *)

Section PickCol.
Context {RT : Runtime}.

Lemma last_match_from_acc (acc : option pystr) (ks : list pystr) (n : pystr) :
  last_match_from acc ks n =
  match last_match ks n with
  | Some k => Some k
  | None => acc
  end.
Proof.
  unfold last_match, last_match_from. revert acc.
  induction ks as [|k ks IH]; intros acc; [reflexivity|].
  simpl fold_left. rewrite (IH (if str_eqb (norm_key k) n then Some k else acc)).
  rewrite (IH (if str_eqb (norm_key k) n then Some k else None)).
  destruct (fold_left _ ks None); [reflexivity|].
  destruct (str_eqb (norm_key k) n); reflexivity.
Qed.

Lemma last_match_cons (k : pystr) (ks : list pystr) (n : pystr) :
  last_match (k :: ks) n =
  match last_match ks n with
  | Some k' => Some k'
  | None => if str_eqb (norm_key k) n then Some k else None
  end.
Proof.
  unfold last_match at 1. unfold last_match_from. simpl fold_left.
  apply (last_match_from_acc _ ks n).
Qed.

Lemma last_match_some (ks : list pystr) (n k : pystr) :
  last_match ks n = Some k -> In k ks /\ norm_key k = n.
Proof.
  induction ks as [|k0 ks IH]; [discriminate|].
  rewrite last_match_cons. destruct (last_match ks n) as [k'|].
  - intros H. injection H as ->. destruct (IH eq_refl). split; [right|]; assumption.
  - destruct (str_eqb (norm_key k0) n) eqn:E; [|discriminate].
    intros H. injection H as <-. apply str_eqb_eq in E. split; [left; reflexivity | exact E].
Qed.

Lemma last_match_none (ks : list pystr) (n : pystr) :
  last_match ks n = None <-> forall k, In k ks -> norm_key k <> n.
Proof.
  induction ks as [|k0 ks IH].
  - split; [intros _ k [] | reflexivity].
  - rewrite last_match_cons. destruct (last_match ks n) as [k'|] eqn:L.
    + split; [discriminate|]. intros H.
      destruct (last_match_some _ _ _ L) as [Hin Hn].
      exfalso. apply (H k'); [right; exact Hin | exact Hn].
    + destruct (str_eqb (norm_key k0) n) eqn:E.
      * split; [discriminate|]. intros H. apply str_eqb_eq in E.
        exfalso. apply (H k0); [left; reflexivity | exact E].
      * split; [|reflexivity]. intros _ k [<-|Hk].
        -- intros H. apply str_eqb_eq in H. congruence.
        -- apply (proj1 IH eq_refl k Hk).
Qed.

Lemma norm_get (ks : list pystr) (d : dict pystr) (n : pystr) :
  dict_get (fold_left (fun d k => dict_set d (norm_key k) k) ks d) n =
  match last_match ks n with
  | Some k => Some k
  | None => dict_get d n
  end.
Proof.
  revert d; induction ks as [|k ks IH]; intros d; [reflexivity|].
  simpl fold_left. rewrite IH, last_match_cons.
  destruct (last_match ks n); [reflexivity|].
  destruct (str_eqb (norm_key k) n) eqn:E.
  - apply str_eqb_eq in E. subst n. apply dict_get_set_same.
  - apply dict_get_set_other. intros H. subst n. rewrite str_eqb_refl in E. discriminate.
Qed.

(** [pick_col] candidate by candidate. *)
Lemma pick_col_cases (r : row) (c : pystr) (cs : list pystr) :
  pick_col r [] = VNone /\
  pick_col r (c :: cs) =
    match last_match (keys r) (norm_key c) with
    | Some k => cell r k
    | None => pick_col r cs
    end.
Proof.
  split; [reflexivity|].
  unfold pick_col. cbn [first_match]. fold (norm_key c).
  change (fun (d : dict pystr) (k : pystr) => dict_set d (lower (strip k)) k)
    with (fun (d : dict pystr) (k : pystr) => dict_set d (norm_key k) k).
  rewrite norm_get. simpl dict_get.
  destruct (last_match (keys r) (norm_key c)); reflexivity.
Qed.

Lemma dict_get_in {V} (d : dict V) (k : pystr) (v : V) :
  dict_get d k = Some v -> In (k, v) d.
Proof.
  induction d as [|[k' v'] r IH]; simpl; [discriminate|].
  destruct (str_eqb k' k) eqn:E.
  - intros H. injection H as ->. apply str_eqb_eq in E. subst. left. reflexivity.
  - intros H. right. apply IH, H.
Qed.

Lemma dict_get_unique {V} (d : dict V) (k : pystr) (v : V) :
  NoDup (keys d) -> In (k, v) d -> dict_get d k = Some v.
Proof.
  induction d as [|[k' v'] r IH]; simpl; [intros _ []|].
  intros Hn Hin. inversion Hn as [|? ? Hk Hn']; subst.
  destruct Hin as [E|Hin].
  - injection E as -> ->. rewrite str_eqb_refl. reflexivity.
  - destruct (str_eqb k' k) eqn:E.
    + apply str_eqb_eq in E. subst. exfalso. apply Hk.
      apply in_map_iff. exists (k, v). auto.
    + apply IH; assumption.
Qed.

Lemma pick_col_unmatched (r : row) (candidates : list pystr) :
  (forall c k, In c candidates -> In k (keys r) -> norm_key k <> norm_key c) ->
  pick_col r candidates = VNone.
Proof.
  induction candidates as [|c cs IH]; intros H; [reflexivity|].
  rewrite (proj2 (pick_col_cases r c cs)).
  assert (L : last_match (keys r) (norm_key c) = None).
  { apply last_match_none. intros k Hk. apply (H c k); [left; reflexivity | exact Hk]. }
  rewrite L. apply IH. intros c' k Hc Hk. apply H; [right; exact Hc | exact Hk].
Qed.

Lemma pick_col_in_row (r : row) (candidates : list pystr) :
  pick_col r candidates = VNone \/ In (pick_col r candidates) (map snd r).
Proof.
  induction candidates as [|c cs IH]; [left; reflexivity|].
  rewrite (proj2 (pick_col_cases r c cs)).
  destruct (last_match (keys r) (norm_key c)) as [k|]; [|exact IH].
  unfold cell. destruct (dict_get r k) as [v|] eqn:E; [|left; reflexivity].
  right. apply in_map_iff. exists (k, v). split; [reflexivity | apply dict_get_in, E].
Qed.

(** X8.  When no column of the row has the normal form of a candidate, the
    lookup gives [None]; and whatever the candidates, it gives [None] or a
    cell of the row.  A candidate that matches a column ends the search,
    also when the cell of that column is [None]. *)
Theorem pick_col_none (r : row) (c : pystr) (candidates : list pystr) :
  ((forall c k, In c candidates -> In k (keys r) -> norm_key k <> norm_key c) ->
   pick_col r candidates = VNone) /\
  (pick_col r candidates = VNone \/ In (pick_col r candidates) (map snd r)) /\
  (forall k, last_match (keys r) (norm_key c) = Some k -> dict_get r k = Some VNone ->
     pick_col r (c :: candidates) = VNone).
Proof.
  split; [apply pick_col_unmatched|]. split; [apply pick_col_in_row|].
  intros k L G. rewrite (proj2 (pick_col_cases r c candidates)), L.
  unfold cell. rewrite G. reflexivity.
Qed.

(** X9.  Candidates are compared by normal form only: two lists of
    candidates that agree up to case and surrounding whitespace find the
    same cell. *)
Theorem pick_col_normal_form (r : row) (cs cs' : list pystr) :
  map norm_key cs = map norm_key cs' -> pick_col r cs = pick_col r cs'.
Proof.
  revert cs'; induction cs as [|c cs IH]; intros [|c' cs'] H; try discriminate;
    [reflexivity|].
  simpl in H. injection H as Hc Hcs.
  rewrite (proj2 (pick_col_cases r c cs)), (proj2 (pick_col_cases r c' cs')), Hc.
  destruct (last_match (keys r) (norm_key c')); [reflexivity | apply IH, Hcs].
Qed.

Lemma NoDup_map_keys (ks : list pystr) : NoDup (map norm_key ks) -> NoDup ks.
Proof.
  induction ks as [|k ks IH]; intros H; [constructor|].
  simpl in H. inversion H as [|? ? Hk Hn]; subst. constructor; [|apply IH, Hn].
  intros Hin. apply Hk. apply in_map, Hin.
Qed.

Lemma last_match_unique (ks : list pystr) (k : pystr) :
  NoDup (map norm_key ks) -> In k ks -> last_match ks (norm_key k) = Some k.
Proof.
  intros Hn Hin. destruct (last_match ks (norm_key k)) as [k'|] eqn:L.
  - destruct (last_match_some _ _ _ L) as [Hin' E]. f_equal.
    clear L. induction ks as [|k0 ks IH]; [destruct Hin|].
    simpl in Hn. inversion Hn as [|? ? Hk Hn']; subst.
    destruct Hin as [->|Hin], Hin' as [->|Hin']; auto.
    + exfalso. apply Hk. rewrite <- E. apply in_map, Hin'.
    + exfalso. apply Hk. rewrite E. apply in_map, Hin.
  - exfalso. apply (proj1 (last_match_none ks (norm_key k)) L k Hin). reflexivity.
Qed.

(** X10.  The lookup ignores case and surrounding whitespace and follows the
    order of the candidates: the cell of the column that matches a
    candidate is found when no earlier candidate matches any column.
    (Column names distinct in normal form.) *)
Theorem pick_col_finds (r : row) (pre post : list pystr) (c k : pystr) (v : value) :
  NoDup (map norm_key (keys r)) ->
  In (k, v) r ->
  norm_key k = norm_key c ->
  (forall c' k', In c' pre -> In k' (keys r) -> norm_key k' <> norm_key c') ->
  pick_col r (pre ++ c :: post) = v.
Proof.
  intros Hn Hin Hk Hpre.
  induction pre as [|c0 pre IH].
  - simpl app. rewrite (proj2 (pick_col_cases r c post)), <- Hk.
    rewrite (last_match_unique _ _ Hn) by (apply in_map_iff; exists (k, v); auto).
    unfold cell. rewrite (dict_get_unique r k v (NoDup_map_keys _ Hn) Hin). reflexivity.
  - simpl app. rewrite (proj2 (pick_col_cases r c0 (pre ++ c :: post))).
    assert (L : last_match (keys r) (norm_key c0) = None).
    { apply last_match_none. intros k' Hk'. apply Hpre; [left; reflexivity | exact Hk']. }
    rewrite L. apply IH. intros c' k' Hc' Hk'. apply Hpre; [right; exact Hc' | exact Hk'].
Qed.

(** X11.  Of two columns with the same normal form the later one wins: the
    lookup gives the cell of the last column of the row when that column
    matches the first candidate, whatever the earlier columns are. *)
Theorem pick_col_last_column_wins (r : row) (k c : pystr) (v : value) (cs : list pystr) :
  ~ In k (keys r) ->
  norm_key k = norm_key c ->
  pick_col (r ++ [(k, v)]) (c :: cs) = v.
Proof.
  intros Hk Hn. rewrite (proj2 (pick_col_cases _ c cs)).
  assert (L : last_match (keys (r ++ [(k, v)])) (norm_key c) = Some k).
  { unfold keys. rewrite map_app. simpl map.
    unfold last_match, last_match_from. rewrite fold_left_app. simpl fold_left.
    rewrite Hn, str_eqb_refl. reflexivity. }
  rewrite L. unfold cell.
  assert (G : dict_get (r ++ [(k, v)]) k = Some v).
  { clear L. induction r as [|[k' v'] r IH]; simpl.
    - rewrite str_eqb_refl. reflexivity.
    - destruct (str_eqb k' k) eqn:E.
      + apply str_eqb_eq in E. subst. exfalso. apply Hk. left. reflexivity.
      + apply IH. intros H. apply Hk. right. exact H. }
  rewrite G. reflexivity.
Qed.

End PickCol.

(** ** The normalizer on whole tables *)

Section Normalizer.
Context {RT : Runtime}.

Lemma dict_set_values {V} (d : dict V) (k : pystr) (v v' : V) :
  In v' (map snd (dict_set d k v)) -> v' = v \/ In v' (map snd d).
Proof.
  induction d as [|[k0 v0] r IH]; simpl.
  - intros [H|[]]. left. symmetry. exact H.
  - destruct (str_eqb k0 k); simpl; intros [H|H]; auto.
    destruct (IH H); auto.
Qed.

Lemma fill_values (cols : list pystr) :
  forall (vals : list value) (d : row) (v : value),
    In v (map snd (fill cols vals d)) -> v = VNone \/ In v vals \/ In v (map snd d).
Proof.
  induction cols as [|c cs IH]; intros vals d v H; simpl in H; [auto|].
  destruct (IH _ _ _ H) as [E|[E|E]]; [auto| |].
  - destruct vals as [|x vals]; [destruct E|]. right. left. right. exact E.
  - destruct (dict_set_values _ _ _ _ E) as [->|E']; [|auto].
    destruct vals as [|x vals]; [left; reflexivity|]. right. left. left. reflexivity.
Qed.

Lemma fill_get_in (cols : list pystr) :
  forall (vals : list value) (d : row) (k : pystr),
    In k cols -> exists v, dict_get (fill cols vals d) k = Some v.
Proof.
  induction cols as [|c cs IH]; intros vals d k Hk; [destruct Hk|].
  simpl fill. destruct (in_dec (list_eq_dec N.eq_dec) k cs) as [Hin|Hnin]; [apply IH, Hin|].
  destruct Hk as [->|Hk]; [|contradiction].
  rewrite fill_get_other by exact Hnin. rewrite dict_get_set_same. eexists. reflexivity.
Qed.

(** A row holds nothing but cells the server sent and [None]s. *)
Lemma make_row_cells (col_names : list pystr) (vals : list value) (v : value) :
  In v (map snd (make_row col_names vals)) -> v = VNone \/ In v vals.
Proof.
  rewrite make_row_fill. intros H.
  destruct (fill_values _ _ _ _ H) as [E|[E|[]]]; auto.
Qed.

(** X12.  An element of a page that carries no values ([values] absent, null,
    empty, or with an empty first row) becomes a row of [None]s, and such a
    row adds no record, whatever the columns and the overrides. *)
Theorem element_without_values_is_skipped (ov : overrides) (col_names : list pystr)
    (e : element) (rest : list row) (acc : list item) :
  (e_values e = None \/ e_values e = Some [] \/ exists more, e_values e = Some ([] :: more)) ->
  (forall k, In k col_names -> dict_get (make_row col_names (first_values e)) k = Some VNone) /\
  kept ov (make_row col_names (first_values e)) = false /\
  main_normalize ov (make_row col_names (first_values e) :: rest) acc
  = main_normalize ov rest acc.
Proof.
  intros H.
  assert (F : first_values e = []).
  { unfold first_values. destruct H as [->|[->|[more ->]]]; reflexivity. }
  rewrite F.
  assert (C : forall cs, pick_col (make_row col_names []) cs = VNone).
  { intros cs. destruct (pick_col_in_row (make_row col_names []) cs) as [E|E]; [exact E|].
    destruct (make_row_cells _ _ _ E) as [E'|[]]. exact E'. }
  assert (K : kept ov (make_row col_names []) = false).
  { unfold kept, resolved_sku. rewrite C. reflexivity. }
  split; [|split; [exact K|]].
  - intros k Hk. rewrite make_row_fill.
    destruct (fill_get_in col_names [] [] k Hk) as [v G]. rewrite G.
    f_equal. apply dict_get_in in G.
    assert (Hv : In v (map snd (fill col_names [] []))).
    { apply in_map_iff. exists (k, v). auto. }
    destruct (fill_values _ _ _ _ Hv) as [E|[[]|[]]]. exact E.
  - cbn [main_normalize]. unfold kept, resolved_sku in K. rewrite K. reflexivity.
Qed.

Lemma unmatched_override (o : pystr) (defaults : list pystr) (r : row) :
  o <> [] ->
  (forall k, In k (keys r) -> norm_key k <> norm_key o) ->
  pick_col r (candidates o defaults) = VNone.
Proof.
  intros Ho H. unfold candidates.
  destruct o as [|c o]; [contradiction|]. cbn [truthy].
  apply (pick_col_unmatched r [c :: o]).
  intros c' k [<-|[]] Hk. apply H, Hk.
Qed.

(** X13.  A non-empty override replaces the aliases of its field: when the
    SKU override names no column of the table, no row has a SKU, no record
    is made and the snapshot written is empty, although the table may well
    have a column called SKU. *)
Theorem unmatched_sku_override_empties_snapshot (ov : overrides) (rows : list row) (w : world) :
  col_sku ov <> [] ->
  (forall r k, In r rows -> In k (keys r) -> norm_key k <> norm_key (col_sku ov)) ->
  rows <> [] ->
  Forall (fun r => kept ov r = false) rows /\
  main_normalize ov rows [] = Ok [] /\
  exists w',
    main_write ov rows w = (Ok tt, w') /\
    events w' = events w ++ [Mkdir out_dir; WriteText out_path []; Log INFO (done_message [])].
Proof.
  intros Ho H Hr.
  assert (K : Forall (fun r => kept ov r = false) rows).
  { apply Forall_forall. intros r Hin. unfold kept, resolved_sku.
    rewrite unmatched_override; [reflexivity | exact Ho |].
    intros k Hk. apply (H r k Hin Hk). }
  assert (N : forall acc, main_normalize ov rows acc = Ok acc).
  { clear H Hr. induction K as [|r rows Hk _ IH]; intros acc; [reflexivity|].
    cbn [main_normalize]. unfold kept, resolved_sku in Hk. rewrite Hk. apply IH. }
  split; [exact K|]. split; [apply N|].
  eexists. split; [apply (main_write_run ov rows [] w Hr (N [])) |].
  cbn [events record sort_by fold_right]. rewrite <- !app_assoc. reflexivity.
Qed.

Lemma main_normalize_from (ov : overrides) (rows : list row) :
  forall acc,
    Forall (fun it => SKU it <> [] /\ trimmed (SKU it) /\ trimmed (Model it)) acc ->
    match main_normalize ov rows acc with
    | Ok items =>
        Forall (fun r => kept ov r = true -> quantity_ok (resolved_qty ov r)) rows /\
        Forall (fun it => SKU it <> [] /\ trimmed (SKU it) /\ trimmed (Model it)) items
    | Raise e =>
        (e = OverflowError \/ e = ValueError) /\
        exists r, In r rows /\ kept ov r = true /\ to_int (resolved_qty ov r) = Raise e
    | Diverge => False
    end.
Proof.
  induction rows as [|r rows IH]; intros acc Hacc.
  - split; [constructor | exact Hacc].
  - cbn [main_normalize].
    destruct (truthy (safe_str (pick_col r (candidates (col_sku ov) sku_defaults)))) eqn:T;
      cbn [negb].
    + pose proof (to_int_result (pick_col r (candidates (col_qty ov) qty_defaults))) as Q.
      destruct (to_int (pick_col r (candidates (col_qty ov) qty_defaults))) as [q|e|] eqn:E.
      * assert (Hnew : Forall (fun it => SKU it <> [] /\ trimmed (SKU it) /\ trimmed (Model it))
                         (acc ++ [{| SKU := safe_str (pick_col r (candidates (col_sku ov) sku_defaults));
                                     Model := safe_str (pick_col r (candidates (col_model ov) model_defaults));
                                     Qty := q |}])).
        { apply Forall_app. split; [exact Hacc|]. constructor; [|constructor].
          cbn [SKU Model]. split; [|split].
          - intros Z. rewrite Z in T. discriminate.
          - apply safe_str_is_trimmed.
          - apply safe_str_is_trimmed. }
        specialize (IH _ Hnew).
        destruct (main_normalize ov rows _) as [items|e|].
        -- destruct IH as [I1 I2]. split; [|exact I2]. constructor; [|exact I1].
           intros _. exact Q.
        -- destruct IH as [I1 [r' [I2 I3]]]. split; [exact I1|].
           exists r'. split; [right; exact I2 | exact I3].
        -- exact IH.
      * split; [exact Q|].
        exists r. split; [left; reflexivity|]. split; [exact T | exact E].
      * exact Q.
    + specialize (IH acc Hacc). destruct (main_normalize ov rows acc) as [items|e|].
      * destruct IH as [I1 I2]. split; [|exact I2]. constructor; [|exact I1].
        unfold kept, resolved_sku. rewrite T. discriminate.
      * destruct IH as [I1 [r' [I2 I3]]]. split; [exact I1|].
        exists r'. split; [right; exact I2 | exact I3].
      * exact IH.
Qed.

(** X14.  The normalizer fails exactly on a kept row whose quantity cell
    is an infinite or NaN float, with the error of [int], and returns no
    partial list then.  Every record it returns has a non-empty SKU, and a
    SKU and a model without surrounding whitespace. *)
Theorem main_normalize_outcome (ov : overrides) (rows : list row) :
  match main_normalize ov rows [] with
  | Ok items =>
      Forall (fun r => kept ov r = true -> quantity_ok (resolved_qty ov r)) rows /\
      Forall (fun it => SKU it <> [] /\ trimmed (SKU it) /\ trimmed (Model it)) items
  | Raise e =>
      (e = OverflowError \/ e = ValueError) /\
      exists r, In r rows /\ kept ov r = true /\ to_int (resolved_qty ov r) = Raise e
  | Diverge => False
  end.
Proof.
  apply main_normalize_from. constructor.
Qed.

End Normalizer.

(** ** The token request: [get_token] *)

Section Token.
Context {RT : Runtime}.

Lemma get_token_run (auth : GraphAuth) (w : world) :
  get_token auth w =
    let r := server w (served w) in
    let w1 :=
      sent (HttpPost (py "https://login.microsoftonline.com/" ++ tenant_id auth
                      ++ py "/oauth2/v2.0/token")
              [(py "client_id", client_id auth);
               (py "client_secret", client_secret auth);
               (py "grant_type", py "client_credentials");
               (py "scope", py "https://graph.microsoft.com/.default")]) w in
    if negb (status_code r =? 200) then
      (Raise (SystemExit 2),
       record (Log ERROR (py "Token request failed: HTTP " ++ str_of_Z (status_code r)
                          ++ py " — " ++ firstn 400 (text r))) w1)
    else
      match json r with
      | None => (Raise JSONDecodeError, w1)
      | Some b =>
          match b_access_token b with
          | Some (c :: t) => (Ok (c :: t), w1)
          | _ => (Raise (SystemExit 2),
                  record (Log ERROR (py "Token response missing access_token.")) w1)
          end
      end.
Proof.
  unfold get_token. cbv zeta. unfold bind at 1. unfold send at 1.
  unfold bind at 1.
  destruct (negb (status_code (server w (served w)) =? 200)); [reflexivity|].
  unfold ret at 1. unfold bind at 1. unfold json_of.
  destruct (json (server w (served w))) as [b|]; [|reflexivity].
  unfold ret at 1. destruct (b_access_token b) as [[|c t]|]; reflexivity.
Qed.

Lemma get_token_gives (auth : GraphAuth) (w w' : world) (t : pystr) :
  get_token auth w = (Ok t, w') ->
  status_code (server w (served w)) = 200 /\ t <> [] /\
  exists b, json (server w (served w)) = Some b /\ b_access_token b = Some t.
Proof.
  rewrite get_token_run. cbv zeta.
  destruct (status_code (server w (served w)) =? 200) eqn:S; cbn [negb]; [|discriminate].
  apply Z.eqb_eq in S.
  destruct (json (server w (served w))) as [b|]; [|discriminate].
  destruct (b_access_token b) as [[|c r]|] eqn:T; try discriminate.
  intros H. injection H as <- <-. split; [exact S|]. split; [discriminate|].
  exists b. auto.
Qed.

(** X15.  The token request is sent once and never repeated, whatever the
    status of the answer.  It gives the token exactly when the answer has
    status 200 and a JSON body with a non-empty [access_token]; any other
    status is fatal (exit code 2) with the status and the first 400
    characters of the body in the error record; a body that is no JSON
    raises the decoder's error; a missing, null or empty token is fatal. *)
Theorem get_token_outcome (auth : GraphAuth) (w : world) :
  let r := server w (served w) in
  let res := fst (get_token auth w) in
  let w' := snd (get_token auth w) in
  let request :=
    HttpPost (py "https://login.microsoftonline.com/" ++ tenant_id auth
              ++ py "/oauth2/v2.0/token")
      [(py "client_id", client_id auth);
       (py "client_secret", client_secret auth);
       (py "grant_type", py "client_credentials");
       (py "scope", py "https://graph.microsoft.com/.default")] in
  served w' = S (served w) /\
  (forall t, res = Ok t <->
     status_code r = 200 /\ t <> [] /\
     exists b, json r = Some b /\ b_access_token b = Some t) /\
  (res = Raise JSONDecodeError <-> status_code r = 200 /\ json r = None) /\
  (status_code r <> 200 ->
     res = Raise (SystemExit 2) /\
     events w' = events w
       ++ [request;
           Log ERROR (py "Token request failed: HTTP " ++ str_of_Z (status_code r)
                      ++ py " — " ++ firstn 400 (text r))]) /\
  (status_code r = 200 ->
     (exists b, json r = Some b /\
        (b_access_token b = None \/ b_access_token b = Some [])) ->
     res = Raise (SystemExit 2) /\
     events w' = events w
       ++ [request; Log ERROR (py "Token response missing access_token.")]) /\
  (forall t, res = Ok t -> events w' = events w ++ [request]).
Proof.
  intros r res w' request. subst res w'. rewrite get_token_run. cbv zeta.
  fold r. fold request.
  destruct (status_code r =? 200) eqn:S; cbn [negb].
  - apply Z.eqb_eq in S.
    destruct (json r) as [b|] eqn:J.
    + destruct (b_access_token b) as [[|c t]|] eqn:T; cbn [fst snd sent record served events].
      * split; [reflexivity|]. split; [|split; [|split; [|split]]].
        -- intros t. split; [discriminate|]. intros [_ [Ht [b' [Hb Hb']]]].
           injection Hb as <-. rewrite T in Hb'. injection Hb' as <-. contradiction.
        -- split; [discriminate | intros [_ H]; discriminate].
        -- intros H. contradiction.
        -- intros _ _. split; [reflexivity|]. rewrite <- app_assoc. reflexivity.
        -- discriminate.
      * split; [reflexivity|]. split; [|split; [|split; [|split]]].
        -- intros t'. split.
           ++ intros H. injection H as <-. split; [exact S|]. split; [discriminate|].
              exists b. auto.
           ++ intros [_ [_ [b' [Hb Hb']]]]. injection Hb as <-. rewrite T in Hb'.
              injection Hb' as <-. reflexivity.
        -- split; [discriminate | intros [_ H]; discriminate].
        -- intros H. contradiction.
        -- intros _ [b' [Hb [Hb'|Hb']]]; injection Hb as <-; rewrite T in Hb'; discriminate.
        -- intros _ _. reflexivity.
      * split; [reflexivity|]. split; [|split; [|split; [|split]]].
        -- intros t. split; [discriminate|]. intros [_ [_ [b' [Hb Hb']]]].
           injection Hb as <-. rewrite T in Hb'. discriminate.
        -- split; [discriminate | intros [_ H]; discriminate].
        -- intros H. contradiction.
        -- intros _ _. split; [reflexivity|]. rewrite <- app_assoc. reflexivity.
        -- discriminate.
    + cbn [fst snd sent record served events].
      split; [reflexivity|]. split; [|split; [|split; [|split]]].
      * intros t. split; [discriminate|]. intros [_ [_ [b' [Hb _]]]]. discriminate.
      * split; auto.
      * intros H. contradiction.
      * intros _ [b' [Hb _]]. discriminate.
      * discriminate.
  - apply Z.eqb_neq in S. cbn [fst snd sent record served events].
    split; [reflexivity|]. split; [|split; [|split; [|split]]].
    + intros t. split; [discriminate|]. intros [H _]. contradiction.
    + split; [discriminate | intros [H _]; contradiction].
    + intros _. split; [reflexivity|]. rewrite <- app_assoc. reflexivity.
    + intros H. contradiction.
    + discriminate.
Qed.

End Token.

(** ** Traces of [graph_get] and of whole runs *)

Ltac is_mandatory := unfold mandatory; repeat (first [left; reflexivity | right]).

Section Traces.
Context {RT : Runtime}.


Lemma requests_app (a b : list event) : requests (a ++ b) = requests a ++ requests b.
Proof. apply filter_app. Qed.



(** *** Traces of whole runs *)

Lemma after_die_other (e : exn) (evs : list event) : e <> SystemExit 2 -> after_die e evs.
Proof. intros H E. contradiction. Qed.

Lemma after_die_app (e : exn) (a b : list event) : after_die e b -> after_die e (a ++ b).
Proof.
  intros H E. destruct (H E) as [pre [msg ->]]. exists (a ++ pre), msg.
  rewrite app_assoc. reflexivity.
Qed.

(** A result that is no exit and no [KeyError] fits [only]. *)
Lemma only_lift {A} (Q : event -> Prop) (r : result A) (w : world) :
  match r with
  | Raise e => e = JSONDecodeError \/ e = ValueError \/ e = OverflowError
  | _ => True
  end ->
  only Q (lift r) w.
Proof.
  intros H. exists []. unfold lift. cbn [fst snd]. rewrite app_nil_r.
  split; [reflexivity|]. split; [constructor|].
  destruct r as [a|e|]; auto. split.
  - unfold failure. tauto.
  - apply after_die_other. destruct H as [-> | [-> | ->]]; discriminate.
Qed.

Lemma only_ret {A} (Q : event -> Prop) (a : A) (w : world) : only Q (ret a) w.
Proof. exists []. cbn. rewrite app_nil_r. auto. Qed.

Lemma only_emit (Q : event -> Prop) (e : event) (w : world) : Q e -> only Q (emit e) w.
Proof. intros H. exists [e]. cbn. auto. Qed.

Lemma only_send (Q : event -> Prop) (e : event) (w : world) : Q e -> only Q (send e) w.
Proof. intros H. exists [e]. cbn. auto. Qed.

Lemma only_getenv (Q : event -> Prop) (n : pystr) (w : world) : only Q (getenv n) w.
Proof. exists []. cbn. rewrite app_nil_r. auto. Qed.

Lemma only_die (Q : event -> Prop) (msg : pystr) (w : world) :
  Q (Log ERROR msg) -> only Q (die msg 2) w.
Proof.
  intros H. exists [Log ERROR msg]. cbn. unfold failure.
  split; [reflexivity|]. split; [auto|]. split; [auto|].
  intros _. exists [], msg. reflexivity.
Qed.

Lemma only_bind {A B} (Q : event -> Prop) (m : M A) (k : A -> M B) (w : world) :
  only Q m w -> (forall a w', only Q (k a) w') -> only Q (bind m k) w.
Proof.
  intros [e1 [E1 [Q1 F1]]] Hk. unfold only, bind.
  destruct (m w) as [[a|e|] w1]; cbn [fst snd] in *.
  - destruct (Hk a w1) as [e2 [E2 [Q2 F2]]]. exists (e1 ++ e2).
    rewrite E2, E1, app_assoc. split; [reflexivity|]. split; [apply Forall_app; auto|].
    destruct (fst (k a w1)); auto.
    destruct F2 as [F2 F3]. split; [exact F2 | apply after_die_app, F3].
  - exists e1. auto.
  - exists e1. auto.
Qed.

Lemma only_json_of (Q : event -> Prop) (r : response) (w : world) : only Q (json_of r) w.
Proof.
  unfold json_of. destruct (json r); [apply only_ret|].
  apply (only_lift Q (Raise JSONDecodeError)). auto.
Qed.

Lemma only_subscript (Q : event -> Prop) (d : dict pystr) (k : pystr) (w : world) :
  (exists v, dict_get d k = Some v) -> only Q (subscript d k) w.
Proof. intros [v H]. unfold subscript. rewrite H. apply only_ret. Qed.

Lemma only_sleep (Q : event -> Prop) (wt : number) (w : world) :
  Q (Sleep wt) -> only Q (sleep wt) w.
Proof.
  intros H. unfold sleep. apply only_bind; [|intros; apply only_emit, H].
  apply only_lift. pose proof (sleep_check_outcome wt) as O.
  destruct (sleep_check wt); tauto.
Qed.

Lemma only_write_text (Q : event -> Prop) (path : pystr) (content : list item) (w : world) :
  Q (WriteText path content) -> Q (Truncate path) -> only Q (write_text path content) w.
Proof.
  intros H1 H2. unfold write_text. destruct (encodable content); [apply only_emit, H1|].
  apply only_bind; [apply only_emit, H2 | intros].
  apply (only_lift Q (Raise ValueError)). auto.
Qed.

Lemma only_graph_get_loop (Q : event -> Prop) (url token : pystr)
    (params : option (dict pystr)) (mr : nat) :
  quiet Q -> Q (HttpGet url (py "Bearer " ++ token) params) ->
  forall (todo : nat) (attempt : Z) (backoff : number) (w : world),
    only Q (graph_get_loop url token params mr todo attempt backoff) w.
Proof.
  intros [QL [QS _]] QG.
  induction todo as [|todo IH]; intros attempt backoff w; cbn [graph_get_loop].
  - apply only_bind; [apply only_die, QL | intros; apply only_ret].
  - apply only_bind; [apply only_send, QG | intros r w1].
    destruct (status_code r =? 200); [apply only_json_of|].
    destruct (retriable (status_code r)).
    + apply only_bind.
      * apply only_lift. pose proof (wait_for_outcome (retry_after r) backoff) as F.
        destruct (wait_for (retry_after r) backoff); auto.
      * intros wt w2. apply only_bind; [apply only_emit, QL | intros _ w3].
        apply only_bind; [apply only_sleep, QS | intros _ w4]. apply IH.
    + apply only_bind; [apply only_die, QL | intros _ w2; apply IH].
Qed.

Lemma only_graph_get_default (Q : event -> Prop) (url token : pystr) (w : world) :
  quiet Q -> Q (HttpGet url (py "Bearer " ++ token) None) ->
  only Q (graph_get_default url token) w.
Proof. intros H1 H2. apply only_graph_get_loop; assumption. Qed.

Lemma only_main_collect_rows (Q : event -> Prop) (token : pystr) (col_names : list pystr) :
  quiet Q -> (forall u, Q (HttpGet u (py "Bearer " ++ token) None)) ->
  forall (fuel : nat) (url : option pystr) (acc : list row) (w : world),
    only Q (main_collect_rows fuel token col_names url acc) w.
Proof.
  intros H1 H2.
  induction fuel as [|fuel IH]; intros url acc w;
    (destruct url as [u|]; [|apply only_ret]); cbn [main_collect_rows];
    (destruct (truthy u); [|apply only_ret]).
  - apply (only_lift Q Diverge). exact I.
  - apply only_bind; [apply only_graph_get_default; auto|].
    intros b w1. apply IH.
Qed.

Lemma only_get_token (Q : event -> Prop) (auth : GraphAuth) (w : world) :
  quiet Q -> (forall u d, Q (HttpPost u d)) -> only Q (get_token auth) w.
Proof.
  intros [QL _] QP. unfold get_token. cbv zeta.
  apply only_bind; [apply only_send, QP | intros r w1].
  apply only_bind;
    [destruct (negb (status_code r =? 200)); [apply only_die, QL | apply only_ret]
    | intros _ w2].
  apply only_bind; [apply only_json_of | intros b w3].
  destruct (b_access_token b) as [t|].
  - apply only_bind; [|intros; apply only_ret].
    destruct (negb (truthy t)); [apply only_die, QL | apply only_ret].
  - apply only_bind; [apply only_die, QL | intros; apply only_ret].
Qed.

Lemma only_main_write (Q : event -> Prop) (ov : overrides) (rows : list row) (w : world) :
  quiet Q -> (forall c, Q (WriteText out_path c)) -> Q (Truncate out_path) ->
  only Q (main_write ov rows) w.
Proof.
  intros [QL [_ QM]] QW QT. unfold main_write.
  apply only_bind; [destruct rows; [apply only_die, QL | apply only_ret]|].
  intros _ w1. apply only_bind.
  - apply only_lift. pose proof (main_normalize_result ov rows []) as F.
    destruct (main_normalize ov rows []); auto.
    destruct F as [[-> | ->] _]; auto.
  - intros items w2. apply only_bind; [apply only_emit, QM | intros _ w3].
    apply only_bind; [apply only_write_text; auto | intros _ w4]. apply only_emit, QL.
Qed.

Lemma only_main_rows (Q : event -> Prop) (fuel : nat) (ov : overrides)
    (token site_id item_id table_name : pystr) (col_names : list pystr) (w : world) :
  quiet Q -> (forall u, Q (HttpGet u (py "Bearer " ++ token) None)) ->
  (forall c, Q (WriteText out_path c)) -> Q (Truncate out_path) ->
  only Q (main_rows fuel ov token site_id item_id table_name col_names) w.
Proof.
  intros H1 H2 H3 H4. unfold main_rows.
  apply only_bind; [apply only_emit, H1 | intros _ w1].
  apply only_bind; [apply only_main_collect_rows; assumption | intros rows w2].
  apply only_main_write; assumption.
Qed.

Lemma quiet_no_write : quiet no_write.
Proof. repeat split. Qed.

Lemma quiet_bears (t : pystr) : quiet (bears t).
Proof. repeat split. Qed.









Ltac only_step D :=
  lazymatch goal with
  | |- only _ (ret _) _ => apply only_ret
  | |- only _ (getenv _) _ => apply only_getenv
  | |- only _ (emit _) _ => apply only_emit; exact I
  | |- only _ (die _ _) _ => apply only_die; exact I
  | |- only _ (subscript _ _) _ => apply only_subscript; eexists; apply D; is_mandatory
  | |- only _ (get_token _) _ =>
      apply only_get_token; [first [apply quiet_no_write | apply quiet_bears] | intros; exact I]
  | |- only _ (graph_get_default _ _) _ =>
      apply only_graph_get_default;
        [first [apply quiet_no_write | apply quiet_bears] | first [exact I | split; reflexivity]]
  | |- only _ (if ?c then _ else _) _ => destruct c
  | |- only _ (match ?c with _ => _ end) _ => destruct c
  end.




Lemma bind_ok {A B} (m : M A) (k : A -> M B) (w w' : world) (a : A) :
  m w = (Ok a, w') -> bind m k w = k a w'.
Proof. intros H. unfold bind. rewrite H. reflexivity. Qed.

Lemma subscript_run (d : dict pystr) (k v : pystr) (w : world) :
  dict_get d k = Some v -> subscript d k w = (Ok v, w).
Proof. intros H. unfold subscript. rewrite H. reflexivity. Qed.

Lemma bears_requests (t : pystr) (evs : list event) (e : event) :
  Forall (bears t) evs -> In e (requests evs) ->
  exists u, e = HttpGet u (py "Bearer " ++ t) None.
Proof.
  intros H Hin. apply filter_In in Hin. destruct Hin as [Hin He].
  rewrite Forall_forall in H. specialize (H e Hin).
  destruct e; try discriminate; cbn [bears] in H; [destruct H|].
  destruct H as [-> ->]. eexists. reflexivity.
Qed.

(** X19.  A run sends no request when a mandatory variable is missing.
    Otherwise its first request is the token request, which carries the
    credentials of the environment to the login endpoint of the tenant and
    is the only POST; every later request is a GET without parameters that
    carries, as bearer, the non-empty token of the answer to the token
    request, which had status 200. *)
Theorem main_requests (fuel : nat) (w : world) :
  let evs := happened w (snd (main fuel w)) in
  let r := server w (served w) in
  (filter (is_missing w) mandatory <> [] -> requests evs = []) /\
  (filter (is_missing w) mandatory = [] ->
   exists gets,
     requests evs = token_request w :: gets /\
     forall e, In e gets ->
       exists u t,
         e = HttpGet u (py "Bearer " ++ t) None /\ t <> [] /\
         status_code r = 200 /\
         exists b, json r = Some b /\ b_access_token b = Some t).
Proof.
  intros evs r. subst evs r. split; intros F.
  - unfold main, bind at 1. rewrite require_env_run.
    destruct (filter (is_missing w) mandatory); [contradiction|].
    cbn [snd]. erewrite happened_app by (cbn [record events]; reflexivity). reflexivity.
  - assert (D : forall k, In k mandatory ->
                  dict_get (collected w mandatory []) k = Some (env_value w k))
      by (intros k Hk; apply collected_get; auto).
    unfold main.
    rewrite (bind_ok _ _ w w (collected w mandatory []))
      by (rewrite require_env_run, F; reflexivity).
    do 7 (erewrite bind_ok by (apply subscript_run, D; is_mandatory); cbv beta zeta).
    do 3 (rewrite (bind_ok (getenv _) _ w w _ eq_refl); cbv beta zeta).
    rewrite (bind_ok (emit _) _ w _ tt eq_refl).
    match goal with |- context [bind (get_token ?a) ?k ?x] =>
      set (auth := a); set (K := k); set (w1 := x) end.
    pose proof (get_token_gives auth w1) as O1.
    assert (T : exists logs,
              events (snd (get_token auth w1))
              = events w ++ [Log INFO (py "🔐 Getting Graph token..."); token_request w] ++ logs /\
              requests logs = []).
    { rewrite get_token_run. cbv zeta.
      destruct (negb (status_code (server w1 (served w1)) =? 200)).
      - eexists [_]. split; [cbn [snd sent record events w1]; rewrite <- !app_assoc; reflexivity|].
        reflexivity.
      - destruct (json (server w1 (served w1))) as [b|].
        + destruct (b_access_token b) as [[|c t]|].
          * eexists [_]. split;
              [cbn [snd sent record events w1]; rewrite <- !app_assoc; reflexivity|].
            reflexivity.
          * exists []. split;
              [cbn [snd sent record events w1]; rewrite <- !app_assoc; reflexivity|].
            reflexivity.
          * eexists [_]. split;
              [cbn [snd sent record events w1]; rewrite <- !app_assoc; reflexivity|].
            reflexivity.
        + exists []. split;
            [cbn [snd sent record events w1]; rewrite <- !app_assoc; reflexivity|].
          reflexivity. }
    destruct T as [logs [T1 T2]].
    unfold bind at 1.
    destruct (get_token auth w1) as [[t|e|] w2] eqn:G; cbn [fst snd] in O1, T1.
    + assert (R : only (bears t) (K t) w2).
      { subst K. cbv beta.
        repeat (first [ match goal with
                        | |- only _ (main_rows _ _ _ _ _ _ _) _ =>
                            apply only_main_rows;
                            [apply quiet_bears | intros; split; reflexivity | intros; exact I | exact I]
                        end
                      | apply only_bind;
                        [solve [repeat only_step D] | intros ? ?; cbv beta zeta] ]). }
      destruct R as [evs2 [E2 [Q2 _]]].
      rewrite (happened_app w _ ([Log INFO (py "🔐 Getting Graph token..."); token_request w]
                                   ++ logs ++ evs2))
        by (rewrite E2, T1, <- !app_assoc; reflexivity).
      exists (requests evs2). split.
      * change (requests ([Log INFO (py "🔐 Getting Graph token..."); token_request w]
                          ++ logs ++ evs2))
          with (token_request w :: requests (logs ++ evs2)).
        rewrite requests_app, T2. reflexivity.
      * intros e He. destruct (bears_requests t evs2 e Q2 He) as [u ->].
        destruct (O1 w2 t eq_refl) as [S [Ht Hb]].
        exists u, t. auto.
    + cbn [snd]. rewrite (happened_app w _ _ T1). exists []. split; [|intros e0 []].
      change (requests ([Log INFO (py "🔐 Getting Graph token..."); token_request w] ++ logs))
        with (token_request w :: requests logs).
      rewrite T2. reflexivity.
    + cbn [snd]. rewrite (happened_app w _ _ T1). exists []. split; [|intros e0 []].
      change (requests ([Log INFO (py "🔐 Getting Graph token..."); token_request w] ++ logs))
        with (token_request w :: requests logs).
      rewrite T2. reflexivity.
Qed.

End Traces.

(** ** Resolving the site, the workbook and the columns *)

Section Resolution.
Context {RT : Runtime}.





End Resolution.

(** * Runs on concrete inputs *)

#[local] Existing Instance example_runtime.

Example py_literal : py "Кол-во" = [1050; 1086; 1083; 45; 1074; 1086]%N.
Proof. reflexivity. Qed.

Example str_of_Z_ex : str_of_Z 503 = py "503" /\ str_of_Z (-12) = py "-12" /\ str_of_Z 0 = py "0".
Proof. repeat split. Qed.

Example strip_ex : strip (py "  1 234 ") = py "1 234".
Proof. reflexivity. Qed.

Example scenario_run :
  fst (script 3 (fresh full_env (table_server
         [table_row [VStr (py "A1"); VStr (py "5")];
          table_row [VStr (py ""); VStr (py "3")];
          table_row [VStr (py "B2"); VStr (py "")]]))) = Ok 0 /\
  snapshots (events (snd (script 3 (fresh full_env (table_server
         [table_row [VStr (py "A1"); VStr (py "5")];
          table_row [VStr (py ""); VStr (py "3")];
          table_row [VStr (py "B2"); VStr (py "")]])))))
  = [[{| SKU := py "A1"; Model := []; Qty := 5 |};
      {| SKU := py "B2"; Model := []; Qty := 0 |}]].
Proof. split; vm_compute; reflexivity. Qed.



Lemma snapshot_sorted_by_sku_witness :
  exists content,
    main_write no_overrides scenario_rows (fresh no_env (fun _ => answer 200 None))
    = (Ok tt,
       record (Log INFO (done_message content))
         (record (WriteText out_path content)
            (record (Mkdir out_dir) (fresh no_env (fun _ => answer 200 None))))) /\
    StronglySorted (fun a b => str_leb (SKU a) (SKU b) = true) content /\
    Permutation scenario_items content.
Proof.
  destruct (snapshot_sorted_by_sku no_overrides scenario_rows scenario_items
              (fresh no_env (fun _ => answer 200 None)))
    as [content (H1 & H2 & _ & H4 & _)].
  - discriminate.
  - vm_compute. reflexivity.
  - exists content. split; [|split; [exact H1 | exact H2]].
    apply H4. rewrite <- (encodable_perm _ _ H2). vm_compute. reflexivity.
Defined.

(** A SKU with a lone surrogate: the run ends with exit code 1, after it
    has emptied the file. *)
Example surrogate_sku_empties_the_file :
  fst (script 3 (fresh full_env (table_server (map table_row surrogate_cells)))) = Ok 1 /\
  snapshots (events (snd (script 3 (fresh full_env (table_server (map table_row surrogate_cells))))))
  = [] /\
  truncations (events (snd (script 3 (fresh full_env (table_server (map table_row surrogate_cells))))))
  = [out_path].
Proof. repeat split; vm_compute; reflexivity. Qed.

(** C3, as stated, fails: a table whose only row has an empty SKU gives one
    collected row, and the run ends with exit code 0 after writing a
    snapshot with no record. *)
Lemma blank_rows_give_empty_snapshot :
  fst (script 3 (fresh full_env (table_server [table_row [VStr (py ""); VStr (py "3")]]))) = Ok 0 /\
  wrote_empty
    (events (snd (script 3 (fresh full_env (table_server [table_row [VStr (py ""); VStr (py "3")]])))))
  = true /\
  snapshots
    (events (snd (script 3 (fresh full_env (table_server [table_row [VStr (py ""); VStr (py "3")]])))))
  = [[]].
Proof. repeat split; vm_compute; reflexivity. Qed.

Lemma zero_rows_is_fatal_witness :
  main_rows 3 no_overrides (py "token") (py "site") (py "item") (py "Table1") sku_qty
    (fresh no_env (fun _ => answer 200 (Some (page [] None))))
  = (Raise (SystemExit 2),
     record (Log ERROR zero_rows_message)
       (snd (main_collect_rows 3 (py "token") sku_qty
               (Some (rows_url (py "site") (py "item") (py "Table1"))) []
               (record (Log INFO loading_message)
                  (fresh no_env (fun _ => answer 200 (Some (page [] None)))))))).
Proof.
  refine (proj1 (zero_rows_is_fatal 3 no_overrides (py "token") (py "site") (py "item")
                   (py "Table1") sku_qty _ _ [] _) eq_refl).
  vm_compute. reflexivity.
Defined.

(** C5, as stated, fails: in ["1-2"] the minus sign is not leading, so
    retaining digits and a leading minus sign gives 12, while [to_int]
    keeps the minus sign and returns 0. *)
Lemma to_int_keeps_every_minus :
  to_int (VStr (py "1-2")) = Ok 0 /\
  to_int_as_specified (VStr (py "1-2")) = Ok 12.
Proof. split; vm_compute; reflexivity. Qed.

Lemma to_int_cases_witness :
  exists n, to_int (VFloat 7.9) = Ok n /\ truncates 7.9 n.
Proof.
  apply (proj1 (to_int_cases (VFloat 7.9))). vm_compute. reflexivity.
Defined.




Example decimal_hint_is_the_wait :
  sleeps (events (snd (graph_get (py "u") (py "token") None 2
         (fresh no_env (hinting (py "120"))))))
  = [NFloat 120; NFloat 120].
Proof. vm_compute. reflexivity. Qed.


(** C8, as stated, fails: a page whose next-link field is present but
    holds the empty string ends the loop, after one request. *)
Lemma empty_next_link_ends_the_loop :
  b_next_link (page [] (Some [])) = Some [] /\
  fst (main_collect_rows 5 (py "token") sku_qty (Some (py "u")) []
         (fresh no_env (fun _ => answer 200 (Some (page [] (Some []))))))
  = Ok [] /\
  served (snd (main_collect_rows 5 (py "token") sku_qty (Some (py "u")) []
                 (fresh no_env (fun _ => answer 200 (Some (page [] (Some [])))))))
  = 1%nat.
Proof. repeat split; vm_compute; reflexivity. Qed.

Lemma pagination_follows_next_links_witness :
  exists w',
    main_collect_rows 2 (py "token") sku_qty (Some (py "u")) []
      (fresh no_env two_pages_server)
    = (Ok (rows_of sku_qty two_pages []), w') /\
    served w' = 2%nat /\
    events w' = gets (py "token") [py "u"; py "next"].
Proof.
  destruct (pagination_follows_next_links (py "token") sku_qty (py "u") []
              (fresh no_env two_pages_server) eq_refl) as (_ & P & _).
  destruct (P two_pages 2%nat) as [w' (P1 & P2 & P3)].
  - split; reflexivity.
  - intros i p Hi. split; [reflexivity | exact Hi].
  - simpl. lia.
  - exists w'. split; [exact P1|]. split; [exact P2 | exact P3].
Defined.

Lemma require_env_reports_all_missing_witness :
  require_env mandatory (fresh partial_env always_busy)
  = (Raise (SystemExit 2),
     record (Log ERROR (py "Missing required env vars: CLIENT_ID, SP_XLSX_PATH" ++ newline
                        ++ py "➡️ Check GitHub Secrets / workflow env mapping."))
       (fresh partial_env always_busy)).
Proof.
  destruct (require_env_reports_all_missing mandatory (fresh partial_env always_busy))
    as (_ & R & _).
  rewrite (R (py "CLIENT_ID") [py "SP_XLSX_PATH"]) by (vm_compute; reflexivity).
  vm_compute. reflexivity.
Defined.

Example require_env_returns_stripped :
  fst (require_env mandatory (fresh full_env always_busy))
  = Ok (map (fun n => (n, py "x")) mandatory).
Proof. vm_compute. reflexivity. Qed.

Lemma graph_get_returns_200_body_witness :
  status_code (busy_once 1) = 200 /\ parsed (busy_once 1) = Ok (page [] None).
Proof.
  pose proof (proj1 (graph_get_returns_200_body (py "u") (py "token") None 6
                       (fresh no_env busy_once))) as H.
  vm_compute in H. destruct H as (_ & H2 & H3).
  vm_compute. split; [exact H2 | exact H3].
Defined.

Lemma to_int_ignores_other_characters_witness :
  to_int (VStr (py "1" ++ 44%N :: py "234")) = to_int (VStr (py "1" ++ py "234")) /\
  to_int (VStr (py "1" ++ py "234")) = Ok 1234.
Proof.
  split.
  - apply (to_int_ignores_other_characters (py "1") (py "234") 44%N). vm_compute. reflexivity.
  - vm_compute. reflexivity.
Defined.

Lemma to_int_str_round_trip_witness :
  to_int (VStr (py_str (VInt (-12)))) = to_int (VInt (-12)) /\
  to_int (VStr (safe_str (VInt (-12)))) = Ok (-12).
Proof.
  destruct (to_int_str_round_trip (-12)) as (A & B & _); [vm_compute; reflexivity|].
  split; [exact A | exact B].
Defined.

Lemma make_row_lookup_witness :
  keys (make_row sku_qty [VStr (py "A1")]) = sku_qty /\
  dict_get (make_row sku_qty [VStr (py "A1")]) (nth 1 sku_qty []) = Some VNone.
Proof.
  assert (N : NoDup sku_qty).
  { unfold sku_qty. repeat constructor; simpl; intuition discriminate. }
  destruct (make_row_lookup sku_qty [VStr (py "A1")] N) as [K [_ [S _]]].
  split; [exact K | apply (S 1%nat); simpl; lia].
Defined.

Lemma pick_col_normal_form_witness :
  pick_col alias_row [py " qty"; py "SKU "] = pick_col alias_row [py "QTY"; py "sku"].
Proof.
  apply pick_col_normal_form. vm_compute. reflexivity.
Defined.

Lemma pick_col_finds_witness :
  pick_col alias_row ([py "SKU"] ++ py "Артикул" :: [py "Sku"]) = VStr (py "A1").
Proof.
  apply (pick_col_finds alias_row [py "SKU"] [py "Sku"] (py "Артикул") (py " артикул")).
  - vm_compute. repeat constructor; simpl; intuition discriminate.
  - right. left. reflexivity.
  - vm_compute. reflexivity.
  - intros c' k' [<-|[]] [<-|[<-|[]]]; vm_compute; discriminate.
Defined.

Lemma pick_col_last_column_wins_witness :
  pick_col (old_sku_row ++ [(py "sku ", VStr (py "new"))]) [py "SKU"] = VStr (py "new").
Proof.
  apply pick_col_last_column_wins.
  - intros [H|[]]. vm_compute in H. discriminate H.
  - vm_compute. reflexivity.
Defined.

Lemma element_without_values_is_skipped_witness :
  kept no_overrides (make_row sku_qty (first_values blank_element)) = false /\
  main_normalize no_overrides
    (make_row sku_qty (first_values blank_element) :: scenario_rows) []
  = main_normalize no_overrides scenario_rows [].
Proof.
  destruct (element_without_values_is_skipped no_overrides sku_qty blank_element
              scenario_rows []) as [_ [K N]].
  - left. reflexivity.
  - split; [exact K | exact N].
Defined.

Lemma unmatched_sku_override_empties_snapshot_witness :
  main_normalize code_override scenario_rows [] = Ok [] /\
  main_normalize no_overrides scenario_rows [] = Ok scenario_items.
Proof.
  split; [|vm_compute; reflexivity].
  destruct (unmatched_sku_override_empties_snapshot code_override scenario_rows
              (fresh no_env (fun _ => answer 200 None))) as [_ [N _]].
  - discriminate.
  - intros r k Hr Hk. vm_compute in Hr.
    destruct Hr as [<-|[<-|[<-|[]]]]; vm_compute in Hk;
      destruct Hk as [<-|[<-|[]]]; vm_compute; discriminate.
  - discriminate.
  - exact N.
Defined.


Lemma normalize_site_path_prefix_witness :
  normalize_site_path (py " /sites/Team ") = strip (py " /sites/Team ") /\
  strip (py " /sites/Team ") = py "/sites/Team".
Proof.
  split; [|vm_compute; reflexivity].
  destruct (normalize_site_path_prefix (py " /sites/Team ")) as [_ [_ [_ H]]].
  apply H. vm_compute. reflexivity.
Defined.

Lemma pick_col_none_witness :
  pick_col alias_row [py "Model"] = VNone.
Proof.
  destruct (pick_col_none alias_row (py "Model") [py "Model"]) as [H _].
  apply H. intros c k [<-|[]] [<-|[<-|[]]]; vm_compute; discriminate.
Defined.

Lemma get_token_outcome_witness :
  fst (get_token {| tenant_id := py "t"; client_id := py "c"; client_secret := py "s" |}
         (fresh no_env (table_server [])))
  = Ok (py "token").
Proof.
  pose proof (get_token_outcome
                {| tenant_id := py "t"; client_id := py "c"; client_secret := py "s" |}
                (fresh no_env (table_server []))) as H.
  cbv zeta in H. destruct H as [_ [H _]]. apply H.
  split; [reflexivity|]. split; [discriminate|].
  exists (object None (Some (py "token"))). split; reflexivity.
Defined.


Lemma main_requests_witness :
  exists gets,
    requests (happened (fresh full_env (table_server []))
                (snd (main 3 (fresh full_env (table_server [])))))
    = token_request (fresh full_env (table_server [])) :: gets.
Proof.
  pose proof (main_requests 3 (fresh full_env (table_server []))) as H.
  cbv zeta in H. destruct H as [_ H].
  destruct H as [gets [H _]]; [vm_compute; reflexivity|].
  exists gets. exact H.
Defined.
